(** * libcmaes: the [Parameters] class of [parameters.h]

    A shallow embedding of the generic Evolution-Strategy parameter object
    (template class [libcmaes::Parameters<TGenoPheno>]) together with the
    static algorithm registry [_algos], and the properties its
    specification states about them.

    Conventions of the embedding.
    - A C++ [int] is a [Z]; the class performs no arithmetic on its [int]
      fields apart from the population-size heuristic, so no wrap-around
      can occur on them. The one integer conversion the class performs,
      between the [int] of the seed accessors and the [uint64_t] field
      [_seed], is written out ([to_uint64], [to_int]).
    - A [double] that is only stored and read back is a binary64 value of
      [PrimFloat.float]. Eigen's [dVec] is a list of such values.
    - [std::unordered_map<int,double>] and [std::map<std::string,int>] are
      stdpp finite maps; [insert], [find] and [erase] are written with
      their C++ meaning ([insert] never replaces an existing key).
    - [time(nullptr)] is an input of the operations that read the clock.
    - [LOG(ERROR) << ...] appends a record to a log. *)

From Stdlib Require Import ZArith Floats Reals Lra Lia.
From stdpp Require Import base gmap strings list.

Set Warnings "-inexact-float".

(** ** Machine integers *)

Module Int.

Local Open Scope Z_scope.

Definition to_uint64 (z : Z) : Z := z mod 2 ^ 64.

Definition to_int (z : Z) : Z := (z + 2 ^ 31) mod 2 ^ 32 - 2 ^ 31.

Definition int_range (z : Z) : Prop := (- 2 ^ 31 <= z < 2 ^ 31)%Z.

Definition uint64_range (z : Z) : Prop := (0 <= z < 2 ^ 64)%Z.

End Int.

(** ** The standard containers the class uses *)

Module Std.

(** [m.insert(std::pair(k,v))]: adds the pair when [k] has no entry and
    leaves the container as it is otherwise. *)
Definition insert `{Countable K} {V} (k : K) (v : V) (m : gmap K V) : gmap K V :=
  match m !! k with
  | Some _ => m
  | None => <[k:=v]> m
  end.

(** [if ((it = m.find(k)) != m.end()) m.erase(it);] *)
Definition find_erase `{Countable K} {V} (k : K) (m : gmap K V) : gmap K V :=
  match m !! k with
  | Some _ => delete k m
  | None => m
  end.

(** Construction of a map from an initializer list: the pairs are inserted
    one by one from left to right, as the implementations of the standard
    library do, so that of two pairs with the same key the first is kept.
    (The C++ standard only says that one of them is kept; see
    [initializer_names_at_most_ten] for what holds either way.) *)
Definition of_initializer_list `{Countable K} {V} (l : list (K * V)) : gmap K V :=
  foldl (fun m kv => insert kv.1 kv.2 m) ∅ l.

(** The first pair of a list with a given key. *)
Fixpoint first_binding `{Countable K} {V} (k : K) (l : list (K * V)) : option V :=
  match l with
  | [] => None
  | (k', v) :: l' => if decide (k' = k) then Some v else first_binding k l'
  end.

End Std.

(** ** Eigen vectors and C arrays *)

Abbreviation dVec := (list float).

Module Eigen.

(** [dVec::Constant(n,x)] *)
Definition Constant (n : Z) (x : float) : dVec := replicate (Z.to_nat n) x.

(** [dVec(n)]: a vector of [n] coefficients whose contents are not
    initialised. The model fills it with zeros; the callers below assign
    every coefficient before any is read. *)
Definition uninitialized (n : Z) : dVec := replicate (Z.to_nat n) 0%float.

(** [v(i)] read as an rvalue. *)
Definition coeff (v : dVec) (i : nat) : float := nth i v 0%float.

End Eigen.

(** A [const double *] argument is the array it points to. Reading [a[i]]
    past its end is undefined behaviour in the source; the model reads a
    zero there, and the properties below are stated for arrays that are
    long enough. *)
Definition array_read (a : list float) (i : nat) : float := nth i a 0%float.

(** ** Logging ([llogging.h]) *)

Inductive severity := ERROR.

Record log_record := LogRecord { log_level : severity; log_message : string }.

(** [std::endl] *)
Definition endl : string := String (Ascii.ascii_of_nat 10) EmptyString.

(** ** The population-size heuristic

    [4 + floor(3.0*log(_dim))], assigned to the [int] field [_lambda].
    The source evaluates it in double precision with libm's [log], for
    which there is nothing to execute here: the arithmetic is read over
    the real numbers, [log] being the natural logarithm. [lambda_of_product]
    is the part of the expression that is exact in double precision as well
    ([floor], the addition of 4 and the conversion to [int], which
    truncates towards zero), applied to the product [3.0*log(_dim)]; the
    lemmas [lambda_of_product_near_10] and [lambda_of_product_near_30] show
    that the values at 10 and 30 do not depend on how that product is
    rounded. For [_dim <= 0] the source converts an infinity or a NaN to
    [int], which is undefined: [default_lambda] stands for the source for
    [0 < _dim] only, and no property below states its value at another
    dimension. *)

Definition floor (x : R) : R := IZR (Int_part x).

Definition double_to_int (x : R) : Z :=
  if Rle_dec 0 x then Int_part x else (- Int_part (- x))%Z.

Definition lambda_of_product (y : R) : Z := double_to_int (4 + floor y).

Definition default_lambda (dim : Z) : Z := lambda_of_product (3 * ln (IZR dim)).

(** ** The class [Parameters<TGenoPheno>] *)

(** The template argument must be default constructible for the empty
    constructor of [Parameters] to exist. *)
Class DefaultConstructible (T : Type) := default_construct : T.

(** The type the template argument defaults to, [GenoPheno<NoBoundStrategy>]
    ([genopheno.h]), of which this class only stores and returns values. *)
Inductive GenoPheno_NoBoundStrategy := IdentityGenoPheno.

#[export] Instance GenoPheno_default : DefaultConstructible GenoPheno_NoBoundStrategy :=
  IdentityGenoPheno.

Record Parameters (TGenoPheno : Type) := MkParameters {
  _dim : Z;
  _lambda : Z;
  _max_iter : Z;
  _max_fevals : Z;
  _quiet : bool;
  _fplot : string;
  _x0min : dVec;
  _x0max : dVec;
  _ftarget : float;
  _ftolerance : float;
  _xtol : float;
  _seed : Z;
  _algo : Z;
  _with_gradient : bool;
  _with_edm : bool;
  _fixed_p : gmap Z float;
  _gp : TGenoPheno;
  _mt_feval : bool;
  _max_hist : Z
}.

Arguments MkParameters {TGenoPheno}.
Arguments _dim {TGenoPheno}.
Arguments _lambda {TGenoPheno}.
Arguments _max_iter {TGenoPheno}.
Arguments _max_fevals {TGenoPheno}.
Arguments _quiet {TGenoPheno}.
Arguments _fplot {TGenoPheno}.
Arguments _x0min {TGenoPheno}.
Arguments _x0max {TGenoPheno}.
Arguments _ftarget {TGenoPheno}.
Arguments _ftolerance {TGenoPheno}.
Arguments _xtol {TGenoPheno}.
Arguments _seed {TGenoPheno}.
Arguments _algo {TGenoPheno}.
Arguments _with_gradient {TGenoPheno}.
Arguments _with_edm {TGenoPheno}.
Arguments _fixed_p {TGenoPheno}.
Arguments _gp {TGenoPheno}.
Arguments _mt_feval {TGenoPheno}.
Arguments _max_hist {TGenoPheno}.

(** The static member [_algos]: the pairs of its initializer, in the order
    of the source, and the map they construct. *)
Definition _algos_initializer : list (string * Z) :=
  [ ("cmaes", 0); ("ipop", 1); ("bipop", 2); ("acmaes", 3); ("aipop", 4);
    ("abipop", 5); ("sepcmaes", 6); ("sepipop", 7); ("sepbipop", 8);
    ("sepacmaes", 9); ("sepipop", 10); ("sepbipop", 11) ]%Z.

Definition _algos : gmap string Z := Std.of_initializer_list _algos_initializer.

(** The names [_algos] holds once constructed, each with the code [find]
    returns for it (see [_algos_registered] below). *)
Definition registered : list (string * Z) :=
  [ ("cmaes", 0); ("ipop", 1); ("bipop", 2); ("acmaes", 3); ("aipop", 4);
    ("abipop", 5); ("sepcmaes", 6); ("sepipop", 7); ("sepbipop", 8);
    ("sepacmaes", 9) ]%Z.

Section Members.

Context {TGenoPheno : Type}.

Implicit Type p : Parameters TGenoPheno.

(** *** Field assignments *)

Definition assign_lambda (v : Z) p : Parameters TGenoPheno :=
  MkParameters (_dim p) v (_max_iter p) (_max_fevals p) (_quiet p) (_fplot p)
    (_x0min p) (_x0max p) (_ftarget p) (_ftolerance p) (_xtol p) (_seed p)
    (_algo p) (_with_gradient p) (_with_edm p) (_fixed_p p) (_gp p)
    (_mt_feval p) (_max_hist p).

Definition assign_max_iter (v : Z) p : Parameters TGenoPheno :=
  MkParameters (_dim p) (_lambda p) v (_max_fevals p) (_quiet p) (_fplot p)
    (_x0min p) (_x0max p) (_ftarget p) (_ftolerance p) (_xtol p) (_seed p)
    (_algo p) (_with_gradient p) (_with_edm p) (_fixed_p p) (_gp p)
    (_mt_feval p) (_max_hist p).

Definition assign_max_fevals (v : Z) p : Parameters TGenoPheno :=
  MkParameters (_dim p) (_lambda p) (_max_iter p) v (_quiet p) (_fplot p)
    (_x0min p) (_x0max p) (_ftarget p) (_ftolerance p) (_xtol p) (_seed p)
    (_algo p) (_with_gradient p) (_with_edm p) (_fixed_p p) (_gp p)
    (_mt_feval p) (_max_hist p).

Definition assign_quiet (v : bool) p : Parameters TGenoPheno :=
  MkParameters (_dim p) (_lambda p) (_max_iter p) (_max_fevals p) v (_fplot p)
    (_x0min p) (_x0max p) (_ftarget p) (_ftolerance p) (_xtol p) (_seed p)
    (_algo p) (_with_gradient p) (_with_edm p) (_fixed_p p) (_gp p)
    (_mt_feval p) (_max_hist p).

Definition assign_fplot (v : string) p : Parameters TGenoPheno :=
  MkParameters (_dim p) (_lambda p) (_max_iter p) (_max_fevals p) (_quiet p) v
    (_x0min p) (_x0max p) (_ftarget p) (_ftolerance p) (_xtol p) (_seed p)
    (_algo p) (_with_gradient p) (_with_edm p) (_fixed_p p) (_gp p)
    (_mt_feval p) (_max_hist p).

Definition assign_x0min (v : dVec) p : Parameters TGenoPheno :=
  MkParameters (_dim p) (_lambda p) (_max_iter p) (_max_fevals p) (_quiet p)
    (_fplot p) v (_x0max p) (_ftarget p) (_ftolerance p) (_xtol p) (_seed p)
    (_algo p) (_with_gradient p) (_with_edm p) (_fixed_p p) (_gp p)
    (_mt_feval p) (_max_hist p).

Definition assign_x0max (v : dVec) p : Parameters TGenoPheno :=
  MkParameters (_dim p) (_lambda p) (_max_iter p) (_max_fevals p) (_quiet p)
    (_fplot p) (_x0min p) v (_ftarget p) (_ftolerance p) (_xtol p) (_seed p)
    (_algo p) (_with_gradient p) (_with_edm p) (_fixed_p p) (_gp p)
    (_mt_feval p) (_max_hist p).

Definition assign_ftarget (v : float) p : Parameters TGenoPheno :=
  MkParameters (_dim p) (_lambda p) (_max_iter p) (_max_fevals p) (_quiet p)
    (_fplot p) (_x0min p) (_x0max p) v (_ftolerance p) (_xtol p) (_seed p)
    (_algo p) (_with_gradient p) (_with_edm p) (_fixed_p p) (_gp p)
    (_mt_feval p) (_max_hist p).

Definition assign_ftolerance (v : float) p : Parameters TGenoPheno :=
  MkParameters (_dim p) (_lambda p) (_max_iter p) (_max_fevals p) (_quiet p)
    (_fplot p) (_x0min p) (_x0max p) (_ftarget p) v (_xtol p) (_seed p)
    (_algo p) (_with_gradient p) (_with_edm p) (_fixed_p p) (_gp p)
    (_mt_feval p) (_max_hist p).

Definition assign_xtol (v : float) p : Parameters TGenoPheno :=
  MkParameters (_dim p) (_lambda p) (_max_iter p) (_max_fevals p) (_quiet p)
    (_fplot p) (_x0min p) (_x0max p) (_ftarget p) (_ftolerance p) v (_seed p)
    (_algo p) (_with_gradient p) (_with_edm p) (_fixed_p p) (_gp p)
    (_mt_feval p) (_max_hist p).

Definition assign_seed (v : Z) p : Parameters TGenoPheno :=
  MkParameters (_dim p) (_lambda p) (_max_iter p) (_max_fevals p) (_quiet p)
    (_fplot p) (_x0min p) (_x0max p) (_ftarget p) (_ftolerance p) (_xtol p) v
    (_algo p) (_with_gradient p) (_with_edm p) (_fixed_p p) (_gp p)
    (_mt_feval p) (_max_hist p).

Definition assign_algo (v : Z) p : Parameters TGenoPheno :=
  MkParameters (_dim p) (_lambda p) (_max_iter p) (_max_fevals p) (_quiet p)
    (_fplot p) (_x0min p) (_x0max p) (_ftarget p) (_ftolerance p) (_xtol p)
    (_seed p) v (_with_gradient p) (_with_edm p) (_fixed_p p) (_gp p)
    (_mt_feval p) (_max_hist p).

Definition assign_with_gradient (v : bool) p : Parameters TGenoPheno :=
  MkParameters (_dim p) (_lambda p) (_max_iter p) (_max_fevals p) (_quiet p)
    (_fplot p) (_x0min p) (_x0max p) (_ftarget p) (_ftolerance p) (_xtol p)
    (_seed p) (_algo p) v (_with_edm p) (_fixed_p p) (_gp p)
    (_mt_feval p) (_max_hist p).

Definition assign_with_edm (v : bool) p : Parameters TGenoPheno :=
  MkParameters (_dim p) (_lambda p) (_max_iter p) (_max_fevals p) (_quiet p)
    (_fplot p) (_x0min p) (_x0max p) (_ftarget p) (_ftolerance p) (_xtol p)
    (_seed p) (_algo p) (_with_gradient p) v (_fixed_p p) (_gp p)
    (_mt_feval p) (_max_hist p).

Definition assign_fixed_p (v : gmap Z float) p : Parameters TGenoPheno :=
  MkParameters (_dim p) (_lambda p) (_max_iter p) (_max_fevals p) (_quiet p)
    (_fplot p) (_x0min p) (_x0max p) (_ftarget p) (_ftolerance p) (_xtol p)
    (_seed p) (_algo p) (_with_gradient p) (_with_edm p) v (_gp p)
    (_mt_feval p) (_max_hist p).

Definition assign_gp (v : TGenoPheno) p : Parameters TGenoPheno :=
  MkParameters (_dim p) (_lambda p) (_max_iter p) (_max_fevals p) (_quiet p)
    (_fplot p) (_x0min p) (_x0max p) (_ftarget p) (_ftolerance p) (_xtol p)
    (_seed p) (_algo p) (_with_gradient p) (_with_edm p) (_fixed_p p) v
    (_mt_feval p) (_max_hist p).

Definition assign_mt_feval (v : bool) p : Parameters TGenoPheno :=
  MkParameters (_dim p) (_lambda p) (_max_iter p) (_max_fevals p) (_quiet p)
    (_fplot p) (_x0min p) (_x0max p) (_ftarget p) (_ftolerance p) (_xtol p)
    (_seed p) (_algo p) (_with_gradient p) (_with_edm p) (_fixed_p p) (_gp p)
    v (_max_hist p).

Definition assign_max_hist (v : Z) p : Parameters TGenoPheno :=
  MkParameters (_dim p) (_lambda p) (_max_iter p) (_max_fevals p) (_quiet p)
    (_fplot p) (_x0min p) (_x0max p) (_ftarget p) (_ftolerance p) (_xtol p)
    (_seed p) (_algo p) (_with_gradient p) (_with_edm p) (_fixed_p p) (_gp p)
    (_mt_feval p) v.

(** *** In-class member initialisers

    The object a constructor starts from: the members the constructor's
    initialiser list names take the given values, every other member its
    in-class initialiser ([_x0min], [_x0max] and [_fixed_p] are default
    constructed, that is, empty). *)

Definition in_class_lambda : Z := (-1)%Z.
Definition in_class_max_iter : Z := (-1)%Z.
Definition in_class_seed : Z := 0%Z.

Definition member_init (dim lambda max_iter seed : Z) (gp : TGenoPheno)
  : Parameters TGenoPheno :=
  {| _dim := dim;
     _lambda := lambda;
     _max_iter := max_iter;
     _max_fevals := -1;
     _quiet := false;
     _fplot := EmptyString;
     _x0min := [];
     _x0max := [];
     _ftarget := (- infinity)%float;
     _ftolerance := 1e-12%float;
     _xtol := 1e-12%float;
     _seed := seed;
     _algo := 0;
     _with_gradient := false;
     _with_edm := false;
     _fixed_p := ∅;
     _gp := gp;
     _mt_feval := false;
     _max_hist := 100 |}.

(** *** Initial point and bounds *)

(** [set_x0(const double &x0)] *)
Definition set_x0_scalar (x0 : float) p : Parameters TGenoPheno :=
  let p := assign_x0max (Eigen.Constant (_dim p) x0) p in
  assign_x0min (_x0max p) p.

(** One turn of the loop of [set_x0(const double *x0)]:
    [_x0min(i) = _x0max(i) = x0[i];] *)
Definition set_x0_array_body (x0 : list float) p (i : nat) : Parameters TGenoPheno :=
  let p := assign_x0max (<[i := array_read x0 i]> (_x0max p)) p in
  assign_x0min (<[i := Eigen.coeff (_x0max p) i]> (_x0min p)) p.

(** [set_x0(const double *x0)] *)
Definition set_x0_array (x0 : list float) p : Parameters TGenoPheno :=
  let p := assign_x0max (Eigen.uninitialized (_dim p)) p in
  let p := assign_x0min (_x0max p) p in
  foldl (set_x0_array_body x0) p (seq 0 (Z.to_nat (_dim p))).

(** [set_x0(const double &x0min, const double &x0max)] *)
Definition set_x0_scalar_bounds (x0min x0max : float) p : Parameters TGenoPheno :=
  let p := assign_x0min (Eigen.Constant (_dim p) x0min) p in
  assign_x0max (Eigen.Constant (_dim p) x0max) p.

(** [set_x0(const dVec &x0)] *)
Definition set_x0_vec (x0 : dVec) p : Parameters TGenoPheno :=
  let p := assign_x0min x0 p in
  assign_x0max x0 p.

(** One turn of the loop of [set_x0(const double *x0min, const double *x0max)] *)
Definition set_x0_array_bounds_body (x0min x0max : list float) p (i : nat)
  : Parameters TGenoPheno :=
  let p := assign_x0min (<[i := array_read x0min i]> (_x0min p)) p in
  assign_x0max (<[i := array_read x0max i]> (_x0max p)) p.

(** [set_x0(const double *x0min, const double *x0max)] *)
Definition set_x0_array_bounds (x0min x0max : list float) p : Parameters TGenoPheno :=
  let p := assign_x0min (Eigen.uninitialized (_dim p)) p in
  let p := assign_x0max (Eigen.uninitialized (_dim p)) p in
  foldl (set_x0_array_bounds_body x0min x0max) p (seq 0 (Z.to_nat (_dim p))).

(** [set_x0(const dVec &x0min, const dVec &x0max)] *)
Definition set_x0_vec_bounds (x0min x0max : dVec) p : Parameters TGenoPheno :=
  let p := assign_x0min x0min p in
  assign_x0max x0max p.

Definition get_x0min p : dVec := _x0min p.

Definition get_x0max p : dVec := _x0max p.

(** *** Constructors *)

(** [Parameters():_dim(0),_lambda(0),_max_iter(0) {}] *)
Definition Parameters_empty `{DefaultConstructible TGenoPheno} : Parameters TGenoPheno :=
  member_init 0 0 0 in_class_seed default_construct.

(** [Parameters(dim, x0, lambda, seed, gp)]; [now] is what [time(nullptr)]
    returns when the constructor runs. *)
Definition Parameters_ctor (now : Z) (dim : Z) (x0 : list float) (lambda : Z)
    (seed : Z) (gp : TGenoPheno) : Parameters TGenoPheno :=
  let p := member_init dim lambda in_class_max_iter seed gp in
  let p := if (_lambda p =? -1)%Z then assign_lambda (default_lambda (_dim p)) p else p in
  let p := if (_seed p =? 0)%Z then assign_seed (Int.to_uint64 now) p else p in
  set_x0_array x0 p.

(** The default arguments [lambda=-1] and [seed=0]. *)
Definition lambda_unspecified : Z := (-1)%Z.
Definition seed_unspecified : Z := 0%Z.

(** *** Fixed parameters *)

(** [set_fixed_p(index, value)] *)
Definition set_fixed_p (index : Z) (value : float) p : Parameters TGenoPheno :=
  assign_fixed_p (Std.insert index value (_fixed_p p)) p.

(** [unset_fixed_p(index)] *)
Definition unset_fixed_p (index : Z) p : Parameters TGenoPheno :=
  assign_fixed_p (Std.find_erase index (_fixed_p p)) p.

(** *** Stopping criteria *)

Definition set_max_iter (maxiter : Z) p := assign_max_iter maxiter p.
Definition get_max_iter p : Z := _max_iter p.
Definition set_max_fevals (fevals : Z) p := assign_max_fevals fevals p.
Definition get_max_fevals p : Z := _max_fevals p.
Definition set_ftarget (val : float) p := assign_ftarget val p.
Definition reset_ftarget p := assign_ftarget (- infinity)%float p.
Definition get_ftarget p : float := _ftarget p.
Definition set_ftolerance (v : float) p := assign_ftolerance v p.
Definition get_ftolerance p : float := _ftolerance p.
Definition set_xtolerance (v : float) p := assign_xtol v p.
Definition get_xtolerance p : float := _xtol p.
Definition set_max_hist (m : Z) p := assign_max_hist m p.

(** *** Seed *)

(** [set_seed(const int &seed)]; [now] is what [time(nullptr)] returns.
    The [int] argument is converted to the [uint64_t] of the field. *)
Definition set_seed (now : Z) (seed : Z) p : Parameters TGenoPheno :=
  if (_seed p =? 0)%Z then assign_seed (Int.to_uint64 now) p
  else assign_seed (Int.to_uint64 seed) p.

(** [int get_seed() const]: the field converted to [int]. *)
Definition get_seed p : Z := Int.to_int (_seed p).

(** *** Remaining accessors *)

Definition lambda p : Z := _lambda p.
Definition dim p : Z := _dim p.
Definition set_quiet (q : bool) p := assign_quiet q p.
Definition quiet p : bool := _quiet p.
Definition set_algo (algo : Z) p := assign_algo algo p.
Definition get_algo p : Z := _algo p.
Definition set_gp (gp : TGenoPheno) p := assign_gp gp p.
Definition get_gp p : TGenoPheno := _gp p.
Definition set_fplot (fplot : string) p := assign_fplot fplot p.
Definition get_fplot p : string := _fplot p.
Definition set_gradient (g : bool) p := assign_with_gradient g p.
Definition get_gradient p : bool := _with_gradient p.
Definition set_edm (edm : bool) p := assign_with_edm edm p.
Definition get_edm p : bool := _with_edm p.
Definition set_mt_feval (mt : bool) p := assign_mt_feval mt p.
Definition get_mt_feval p : bool := _mt_feval p.

(** *** Selection of the algorithm by name *)

(** The record [LOG(ERROR) << "unknown algorithm " << algo << std::endl]
    writes. *)
Definition unknown_algorithm (algo : string) : log_record :=
  LogRecord ERROR ("unknown algorithm " +:+ algo +:+ endl).

(** [set_str_algo(algo)], run against the registry [algos]; returns the
    object and the records logged. *)
Definition set_str_algo (algos : gmap string Z) (algo : string) p
  : Parameters TGenoPheno * list log_record :=
  match algos !! algo with
  | Some code => (assign_algo code p, [])
  | None => (p, [unknown_algorithm algo])
  end.

End Members.

(** ** Calls on an object

    The public member functions that modify an object, as the calls a
    client can make. The six overloads of [set_x0] are grouped. *)

Inductive x0_call :=
| X0_scalar (x0 : float)
| X0_array (x0 : list float)
| X0_scalar_bounds (x0min x0max : float)
| X0_vec (x0 : dVec)
| X0_array_bounds (x0min x0max : list float)
| X0_vec_bounds (x0min x0max : dVec).

Definition set_x0 {TGenoPheno} (c : x0_call) (p : Parameters TGenoPheno)
  : Parameters TGenoPheno :=
  match c with
  | X0_scalar x0 => set_x0_scalar x0 p
  | X0_array x0 => set_x0_array x0 p
  | X0_scalar_bounds x0min x0max => set_x0_scalar_bounds x0min x0max p
  | X0_vec x0 => set_x0_vec x0 p
  | X0_array_bounds x0min x0max => set_x0_array_bounds x0min x0max p
  | X0_vec_bounds x0min x0max => set_x0_vec_bounds x0min x0max p
  end.

(** What the specification says the getters return after a call of
    [set_x0] on an object of dimension [dim], read off the arguments of
    the call and written without any function of the implementation: a
    scalar stands for the vector of [dim] coefficients all equal to it,
    an array for its first [dim] values (all of it when it holds exactly
    [dim] values), a [dVec] for itself; one argument serves as both
    bounds. *)
Definition x0_bounds (dim : Z) (c : x0_call) : dVec * dVec :=
  match c with
  | X0_scalar x0 => (replicate (Z.to_nat dim) x0, replicate (Z.to_nat dim) x0)
  | X0_array x0 => (take (Z.to_nat dim) x0, take (Z.to_nat dim) x0)
  | X0_scalar_bounds x0min x0max =>
      (replicate (Z.to_nat dim) x0min, replicate (Z.to_nat dim) x0max)
  | X0_vec x0 => (x0, x0)
  | X0_array_bounds x0min x0max =>
      (take (Z.to_nat dim) x0min, take (Z.to_nat dim) x0max)
  | X0_vec_bounds x0min x0max => (x0min, x0max)
  end.

(** The arrays passed to the pointer overloads hold at least [dim] values,
    so that the loops read inside them. *)
Definition x0_readable (dim : Z) (c : x0_call) : Prop :=
  match c with
  | X0_array x0 => Z.to_nat dim <= length x0
  | X0_array_bounds x0min x0max =>
      Z.to_nat dim <= length x0min /\ Z.to_nat dim <= length x0max
  | _ => True
  end.

(** An object with its two bound vectors cleared: what is left of it is
    what [set_x0] does not touch. *)
Definition outside_bounds {TGenoPheno} (p : Parameters TGenoPheno)
  : Parameters TGenoPheno :=
  assign_x0min [] (assign_x0max [] p).

Inductive call (TGenoPheno : Type) :=
| Call_set_x0 (c : x0_call)
| Call_set_fixed_p (index : Z) (value : float)
| Call_unset_fixed_p (index : Z)
| Call_set_max_iter (maxiter : Z)
| Call_set_max_fevals (fevals : Z)
| Call_set_ftarget (val : float)
| Call_reset_ftarget
| Call_set_seed (now : Z) (seed : Z)
| Call_set_ftolerance (v : float)
| Call_set_xtolerance (v : float)
| Call_set_quiet (q : bool)
| Call_set_algo (algo : Z)
| Call_set_str_algo (algo : string)
| Call_set_gp (gp : TGenoPheno)
| Call_set_fplot (fplot : string)
| Call_set_gradient (g : bool)
| Call_set_edm (edm : bool)
| Call_set_mt_feval (mt : bool)
| Call_set_max_hist (m : Z).

Arguments Call_set_x0 {TGenoPheno}.
Arguments Call_set_fixed_p {TGenoPheno}.
Arguments Call_unset_fixed_p {TGenoPheno}.
Arguments Call_set_max_iter {TGenoPheno}.
Arguments Call_set_max_fevals {TGenoPheno}.
Arguments Call_set_ftarget {TGenoPheno}.
Arguments Call_reset_ftarget {TGenoPheno}.
Arguments Call_set_seed {TGenoPheno}.
Arguments Call_set_ftolerance {TGenoPheno}.
Arguments Call_set_xtolerance {TGenoPheno}.
Arguments Call_set_quiet {TGenoPheno}.
Arguments Call_set_algo {TGenoPheno}.
Arguments Call_set_str_algo {TGenoPheno}.
Arguments Call_set_gp {TGenoPheno}.
Arguments Call_set_fplot {TGenoPheno}.
Arguments Call_set_gradient {TGenoPheno}.
Arguments Call_set_edm {TGenoPheno}.
Arguments Call_set_mt_feval {TGenoPheno}.
Arguments Call_set_max_hist {TGenoPheno}.

(** The state a call runs in: the static registry, the object the call is
    made on, and the log. *)
Record World (TGenoPheno : Type) := MkWorld {
  static_algos : gmap string Z;
  object : Parameters TGenoPheno;
  logged : list log_record
}.

Arguments MkWorld {TGenoPheno}.
Arguments static_algos {TGenoPheno}.
Arguments object {TGenoPheno}.
Arguments logged {TGenoPheno}.

Section Calls.

Context {TGenoPheno : Type}.

(** The state of a program in which [p] is the object and nothing has
    been logged: the registry is as its initializer made it. *)
Definition initial_world (p : Parameters TGenoPheno) : World TGenoPheno :=
  MkWorld _algos p [].

Definition on_object (f : Parameters TGenoPheno -> Parameters TGenoPheno)
    (w : World TGenoPheno) : World TGenoPheno :=
  MkWorld (static_algos w) (f (object w)) (logged w).

Definition exec (c : call TGenoPheno) (w : World TGenoPheno) : World TGenoPheno :=
  match c with
  | Call_set_x0 c => on_object (set_x0 c) w
  | Call_set_fixed_p index value => on_object (set_fixed_p index value) w
  | Call_unset_fixed_p index => on_object (unset_fixed_p index) w
  | Call_set_max_iter maxiter => on_object (set_max_iter maxiter) w
  | Call_set_max_fevals fevals => on_object (set_max_fevals fevals) w
  | Call_set_ftarget val => on_object (set_ftarget val) w
  | Call_reset_ftarget => on_object reset_ftarget w
  | Call_set_seed now seed => on_object (set_seed now seed) w
  | Call_set_ftolerance v => on_object (set_ftolerance v) w
  | Call_set_xtolerance v => on_object (set_xtolerance v) w
  | Call_set_quiet q => on_object (set_quiet q) w
  | Call_set_algo algo => on_object (set_algo algo) w
  | Call_set_str_algo algo =>
      let '(p, records) := set_str_algo (static_algos w) algo (object w) in
      MkWorld (static_algos w) p (logged w ++ records)
  | Call_set_gp gp => on_object (set_gp gp) w
  | Call_set_fplot fplot => on_object (set_fplot fplot) w
  | Call_set_gradient g => on_object (set_gradient g) w
  | Call_set_edm edm => on_object (set_edm edm) w
  | Call_set_mt_feval mt => on_object (set_mt_feval mt) w
  | Call_set_max_hist m => on_object (set_max_hist m) w
  end.

(** A sequence of calls, first to last. *)
Definition exec_all (cs : list (call TGenoPheno)) (w : World TGenoPheno)
  : World TGenoPheno :=
  foldl (fun w c => exec c w) w cs.

End Calls.

(** ** Objects used in the examples *)

(** [Parameters<> p;] *)
Definition example_empty : Parameters GenoPheno_NoBoundStrategy := Parameters_empty.

(** [double x0[1] = {0}; Parameters<> p(1, x0, 6, 42);] built when the
    clock reads 1414141414. *)
Definition example_seeded : Parameters GenoPheno_NoBoundStrategy :=
  Parameters_ctor 1414141414 1 [0%float] 6 42 IdentityGenoPheno.

(** [Parameters<> p(dim, x0);] with [x0] an array of [dim] zeros, built
    when the clock reads 1414141414. *)
Definition example_zeros (dim : Z) : Parameters GenoPheno_NoBoundStrategy :=
  Parameters_ctor 1414141414 dim (replicate (Z.to_nat dim) 0%float)
    lambda_unspecified seed_unspecified IdentityGenoPheno.

(** ** Notions used by the further properties *)

(** The data members the modifiers assign; [_x0min] and [_x0max], always
    assigned together, count as one. *)
Inductive member :=
| M_bounds | M_fixed_p | M_max_iter | M_max_fevals | M_ftarget | M_seed
| M_ftolerance | M_xtol | M_quiet | M_algo | M_gp | M_fplot
| M_with_gradient | M_with_edm | M_mt_feval | M_max_hist.

(** The member the body of each modifier assigns. *)
Definition written_member {TGenoPheno} (c : call TGenoPheno) : member :=
  match c with
  | Call_set_x0 _ => M_bounds
  | Call_set_fixed_p _ _ | Call_unset_fixed_p _ => M_fixed_p
  | Call_set_max_iter _ => M_max_iter
  | Call_set_max_fevals _ => M_max_fevals
  | Call_set_ftarget _ | Call_reset_ftarget => M_ftarget
  | Call_set_seed _ _ => M_seed
  | Call_set_ftolerance _ => M_ftolerance
  | Call_set_xtolerance _ => M_xtol
  | Call_set_quiet _ => M_quiet
  | Call_set_algo _ | Call_set_str_algo _ => M_algo
  | Call_set_gp _ => M_gp
  | Call_set_fplot _ => M_fplot
  | Call_set_gradient _ => M_with_gradient
  | Call_set_edm _ => M_with_edm
  | Call_set_mt_feval _ => M_mt_feval
  | Call_set_max_hist _ => M_max_hist
  end.

(** The names given to [set_str_algo] in a sequence of calls that [algos]
    does not hold, in the order of the calls. *)
Definition unknown_names {TGenoPheno} (algos : gmap string Z)
    (cs : list (call TGenoPheno)) : list string :=
  flat_map (fun c => match c with
                     | Call_set_str_algo name =>
                         match algos !! name with
                         | Some _ => []
                         | None => [name]
                         end
                     | _ => []
                     end) cs.

Definition is_set_algo {TGenoPheno} (c : call TGenoPheno) : bool :=
  match c with Call_set_algo _ => true | _ => false end.

(** [Parameters<> p; p.set_fixed_p(3, 1.0);] *)
Definition example_frozen : Parameters GenoPheno_NoBoundStrategy :=
  set_fixed_p 3 1%float example_empty.

(** * Properties *)

(** ** Integer conversions *)

Lemma to_uint64_range z : Int.uint64_range (Int.to_uint64 z).
Proof. unfold Int.uint64_range, Int.to_uint64. apply Z.mod_pos_bound. lia. Qed.

Lemma to_uint64_id z : Int.uint64_range z -> Int.to_uint64 z = z.
Proof. unfold Int.uint64_range, Int.to_uint64. intros Hz. apply Z.mod_small. lia. Qed.

Lemma to_uint64_negative z :
  (- 2 ^ 64 <= z < 0)%Z -> Int.to_uint64 z = (z + 2 ^ 64)%Z.
Proof.
  unfold Int.to_uint64. intros Hz. symmetry.
  apply Z.mod_unique_pos with (q := (-1)%Z); lia.
Qed.

Lemma to_int_to_uint64 z : Int.int_range z -> Int.to_int (Int.to_uint64 z) = z.
Proof.
  unfold Int.int_range. intros Hz.
  destruct (Z_lt_le_dec z 0) as [Hn | Hp].
  - rewrite to_uint64_negative by lia. unfold Int.to_int.
    rewrite <- (Z.mod_unique_pos (z + 2 ^ 64 + 2 ^ 31) (2 ^ 32) (2 ^ 32) (z + 2 ^ 31))
      by lia.
    lia.
  - rewrite to_uint64_id by (unfold Int.uint64_range; lia).
    unfold Int.to_int. rewrite Z.mod_small by lia. lia.
Qed.

(** ** Container operations *)

Section StdFacts.

Context `{Countable K} {V : Type}.

Implicit Types (m : gmap K V) (k : K) (v : V).

Lemma std_insert_fresh k v m : m !! k = None -> Std.insert k v m = <[k:=v]> m.
Proof. unfold Std.insert. intros ->. reflexivity. Qed.

Lemma std_insert_present k v m : is_Some (m !! k) -> Std.insert k v m = m.
Proof. unfold Std.insert. intros [w ->]. reflexivity. Qed.

Lemma std_insert_lookup k v m :
  Std.insert k v m !! k = Some (default v (m !! k)).
Proof.
  unfold Std.insert. destruct (m !! k) as [w|] eqn:E; simpl.
  - exact E.
  - apply lookup_insert_eq.
Qed.

Lemma std_insert_lookup_ne k k' v m : k ≠ k' -> Std.insert k v m !! k' = m !! k'.
Proof.
  unfold Std.insert. intros Hne. destruct (m !! k); [reflexivity|].
  apply lookup_insert_ne, Hne.
Qed.

Lemma std_insert_insert k v w m : Std.insert k w (Std.insert k v m) = Std.insert k v m.
Proof. apply std_insert_present. rewrite std_insert_lookup. eauto. Qed.

Lemma std_find_erase_delete k m : Std.find_erase k m = delete k m.
Proof.
  unfold Std.find_erase. destruct (m !! k) eqn:E; [reflexivity|].
  symmetry. apply delete_id, E.
Qed.

Lemma std_find_erase_lookup k m : Std.find_erase k m !! k = None.
Proof. rewrite std_find_erase_delete. apply lookup_delete_eq. Qed.

Lemma std_find_erase_lookup_ne k k' m : k ≠ k' -> Std.find_erase k m !! k' = m !! k'.
Proof. intros Hne. rewrite std_find_erase_delete. apply lookup_delete_ne, Hne. Qed.

Lemma std_find_erase_absent k m : m !! k = None -> Std.find_erase k m = m.
Proof. unfold Std.find_erase. intros ->. reflexivity. Qed.

Lemma foldl_std_insert_lookup (l : list (K * V)) m k :
  foldl (fun m kv => Std.insert kv.1 kv.2 m) m l !! k =
  match m !! k with Some v => Some v | None => Std.first_binding k l end.
Proof.
  revert m. induction l as [|[k' v'] l IH]; intros m; simpl.
  - destruct (m !! k); reflexivity.
  - rewrite IH. destruct (decide (k' = k)) as [->|Hne].
    + rewrite std_insert_lookup. destruct (m !! k); reflexivity.
    + rewrite std_insert_lookup_ne by exact Hne. reflexivity.
Qed.

Lemma of_initializer_list_lookup (l : list (K * V)) k :
  Std.of_initializer_list l !! k = Std.first_binding k l.
Proof.
  unfold Std.of_initializer_list. rewrite foldl_std_insert_lookup.
  rewrite lookup_empty. reflexivity.
Qed.

End StdFacts.

(** ** Fixed parameters *)

Section FixedParameters.

Context {TGenoPheno : Type}.

Implicit Type p : Parameters TGenoPheno.

Lemma assign_fixed_p_same p : assign_fixed_p (_fixed_p p) p = p.
Proof. destruct p. reflexivity. Qed.

Lemma set_fixed_p_lookup index value p :
  _fixed_p (set_fixed_p index value p) !! index =
  Some (default value (_fixed_p p !! index)).
Proof. unfold set_fixed_p. simpl. apply std_insert_lookup. Qed.

Lemma set_fixed_p_absent index value p :
  _fixed_p p !! index = None ->
  _fixed_p (set_fixed_p index value p) = <[index:=value]> (_fixed_p p).
Proof. intros Hnone. unfold set_fixed_p. simpl. apply std_insert_fresh, Hnone. Qed.

Lemma set_fixed_p_present index value p :
  is_Some (_fixed_p p !! index) -> set_fixed_p index value p = p.
Proof.
  intros Hsome. unfold set_fixed_p.
  rewrite std_insert_present by exact Hsome. apply assign_fixed_p_same.
Qed.

Lemma set_fixed_p_lookup_ne index index' value p :
  index ≠ index' ->
  _fixed_p (set_fixed_p index value p) !! index' = _fixed_p p !! index'.
Proof. intros Hne. unfold set_fixed_p. simpl. apply std_insert_lookup_ne, Hne. Qed.

(** A second [set_fixed_p] on the same index changes nothing, whatever
    value it is given. *)
Lemma set_fixed_p_again index v1 v2 p :
  set_fixed_p index v2 (set_fixed_p index v1 p) = set_fixed_p index v1 p.
Proof.
  apply set_fixed_p_present. rewrite set_fixed_p_lookup. eauto.
Qed.

Lemma unset_fixed_p_lookup index p :
  _fixed_p (unset_fixed_p index p) !! index = None.
Proof. unfold unset_fixed_p. simpl. apply std_find_erase_lookup. Qed.

Lemma unset_fixed_p_lookup_ne index index' p :
  index ≠ index' ->
  _fixed_p (unset_fixed_p index p) !! index' = _fixed_p p !! index'.
Proof. intros Hne. unfold unset_fixed_p. simpl. apply std_find_erase_lookup_ne, Hne. Qed.

Lemma unset_fixed_p_absent index p :
  _fixed_p p !! index = None -> unset_fixed_p index p = p.
Proof.
  intros Hnone. unfold unset_fixed_p.
  rewrite std_find_erase_absent by exact Hnone. apply assign_fixed_p_same.
Qed.

(** C1 (as the code behaves). Freezing index [i] to [v1] and then to [v2]
    on an object where [i] is not yet fixed leaves [i] bound to [v1], not
    to [v2]: [std::unordered_map::insert] does not replace the value of a
    key that is present, so the second call has no effect at all. *)
Theorem set_fixed_p_twice_keeps_first (i : Z) (v1 v2 : float) p :
  _fixed_p p !! i = None ->
  _fixed_p (set_fixed_p i v2 (set_fixed_p i v1 p)) !! i = Some v1 /\
  set_fixed_p i v2 (set_fixed_p i v1 p) = set_fixed_p i v1 p.
Proof.
  intros Hnone. rewrite set_fixed_p_again. split; [|reflexivity].
  rewrite set_fixed_p_lookup, Hnone. reflexivity.
Qed.

(** C8. Freezing [i] and then unfreezing it leaves the mapping without
    [i] (and as it was at every other index); unfreezing an index that is
    not in the mapping changes nothing, so that unfreezing twice is the
    same as unfreezing once. *)
Theorem unset_fixed_p_after_set (i : Z) (v : float) p :
  _fixed_p (unset_fixed_p i (set_fixed_p i v p)) !! i = None /\
  (forall j, j ≠ i ->
     _fixed_p (unset_fixed_p i (set_fixed_p i v p)) !! j = _fixed_p p !! j) /\
  (_fixed_p p !! i = None -> unset_fixed_p i p = p) /\
  unset_fixed_p i (unset_fixed_p i p) = unset_fixed_p i p.
Proof.
  split; [apply unset_fixed_p_lookup|]. split; [|split].
  - intros j Hne.
    rewrite unset_fixed_p_lookup_ne, set_fixed_p_lookup_ne by congruence.
    reflexivity.
  - apply unset_fixed_p_absent.
  - apply unset_fixed_p_absent, unset_fixed_p_lookup.
Qed.

End FixedParameters.

(** The failing run of C1 on a default-constructed object:
    [set_fixed_p(3,1.0); set_fixed_p(3,2.0)] leaves index 3 frozen at 1.0. *)
Lemma set_fixed_p_twice_keeps_first_witness :
  _fixed_p example_empty !! 3%Z = None /\
  _fixed_p (set_fixed_p 3 2%float (set_fixed_p 3 1%float example_empty)) !! 3%Z
    = Some 1%float.
Proof.
  split; [reflexivity|].
  exact (proj1 (set_fixed_p_twice_keeps_first 3 1%float 2%float example_empty
                  eq_refl)).
Defined.

Lemma unset_fixed_p_after_set_witness :
  _fixed_p example_empty !! 3%Z = None /\
  unset_fixed_p 3 example_empty = example_empty.
Proof.
  split; [reflexivity|].
  destruct (unset_fixed_p_after_set 3 1%float example_empty)
    as (_ & _ & Habsent & _).
  apply Habsent. reflexivity.
Defined.

(** ** The algorithm registry *)

Lemma _algos_lookup (name : string) :
  _algos !! name = Std.first_binding name _algos_initializer.
Proof. apply of_initializer_list_lookup. Qed.

Lemma _algos_registered : _algos = list_to_map registered.
Proof. vm_compute. reflexivity. Qed.

Lemma registered_NoDup : NoDup (registered.*1).
Proof. apply (bool_decide_unpack (NoDup (registered.*1))). vm_compute. exact I. Qed.

Lemma _algos_lookup_registered (name : string) (code : Z) :
  _algos !! name = Some code <-> (name, code) ∈ registered.
Proof.
  rewrite _algos_registered. symmetry.
  apply elem_of_list_to_map, registered_NoDup.
Qed.

Lemma _algos_codes (name : string) (code : Z) :
  _algos !! name = Some code -> (0 <= code <= 9)%Z.
Proof.
  rewrite _algos_lookup_registered. unfold registered.
  rewrite !elem_of_cons, elem_of_nil.
  intros Hin.
  repeat (destruct Hin as [Heq | Hin]; [inversion Heq; lia|]).
  contradiction.
Qed.

(** Whichever pair of a repeated key a library keeps, a map whose entries
    all come from the initializer of [_algos] has at most 10 of them. *)
Lemma initializer_names_at_most_ten (m : gmap string Z) :
  (forall name code, m !! name = Some code -> (name, code) ∈ _algos_initializer) ->
  size m <= 10.
Proof.
  intros Hsub.
  assert (Hdom : dom m ⊆ (list_to_set (_algos_initializer.*1) : gset string)).
  { intros name Hname. apply elem_of_dom in Hname as [code Hcode].
    apply elem_of_list_to_set. apply list_elem_of_fmap.
    exists (name, code). split; [reflexivity|]. apply Hsub, Hcode. }
  apply subseteq_size in Hdom. rewrite size_dom in Hdom.
  etransitivity; [exact Hdom|]. vm_compute. reflexivity.
Qed.

Section Registry.

Context {TGenoPheno : Type}.

Lemma exec_static_algos (c : call TGenoPheno) w :
  static_algos (exec c w) = static_algos w.
Proof.
  destruct c; try reflexivity.
  simpl. destruct (set_str_algo (static_algos w) algo (object w)). reflexivity.
Qed.

(** C3 (as the code behaves). The initializer of [_algos] lists 12
    pairs, but it names sepipop and sepbipop twice where the docstrings of
    [set_algo] and [set_str_algo] have sepaipop and sepabipop for the codes
    10 and 11. The map keeps one entry per name: it has 10 entries,
    sepipop and sepbipop are found with 7 and 8, no name is found with 10
    or 11, and [set_str_algo] with sepaipop or sepabipop logs an unknown
    algorithm and leaves the object as it was. *)
Theorem _algos_misses_codes_10_and_11 (p : Parameters TGenoPheno) :
  length _algos_initializer = 12 /\
  size _algos = 10 /\
  _algos !! "sepipop" = Some 7%Z /\
  _algos !! "sepbipop" = Some 8%Z /\
  (forall name, _algos !! name <> Some 10%Z /\ _algos !! name <> Some 11%Z) /\
  set_str_algo _algos "sepaipop" p = (p, [unknown_algorithm "sepaipop"]) /\
  set_str_algo _algos "sepabipop" p = (p, [unknown_algorithm "sepabipop"]).
Proof.
  split; [reflexivity|]. split; [reflexivity|].
  split; [reflexivity|]. split; [reflexivity|].
  split.
  - intros name. split; intros Hname; apply _algos_codes in Hname; lia.
  - assert (Hmiss : forall name, _algos !! name = None ->
              set_str_algo _algos name p = (p, [unknown_algorithm name])).
    { intros name Hnone. unfold set_str_algo. rewrite Hnone. reflexivity. }
    split; apply Hmiss; reflexivity.
Qed.

End Registry.

(** ** Selection of the algorithm by name *)

Section StrAlgo.

Context {TGenoPheno : Type}.

Implicit Type p : Parameters TGenoPheno.

Lemma set_str_algo_found algos name code p :
  algos !! name = Some code ->
  set_str_algo algos name p = (assign_algo code p, []).
Proof. unfold set_str_algo. intros ->. reflexivity. Qed.

Lemma set_str_algo_not_found algos name p :
  algos !! name = None ->
  set_str_algo algos name p = (p, [unknown_algorithm name]).
Proof. unfold set_str_algo. intros ->. reflexivity. Qed.

(** C4. Selecting by a name that is not in the registry returns normally,
    leaves the object (hence the algorithm code [c] it held) as it was and
    logs one ERROR record naming the string; selecting "bipop" sets the
    code to 2 and logs nothing. *)
Theorem set_str_algo_unknown_name (c : Z) (s : string) p :
  get_algo p = c ->
  _algos !! s = None ->
  set_str_algo _algos s p = (p, [unknown_algorithm s]) /\
  get_algo (set_str_algo _algos s p).1 = c /\
  exec (Call_set_str_algo s) (initial_world p)
    = MkWorld _algos p [LogRecord ERROR ("unknown algorithm " +:+ s +:+ endl)] /\
  get_algo (set_str_algo _algos "bipop" p).1 = 2%Z /\
  (set_str_algo _algos "bipop" p).2 = [].
Proof.
  intros Hc Hs.
  assert (Hrun : set_str_algo _algos s p = (p, [unknown_algorithm s]))
    by (apply set_str_algo_not_found, Hs).
  split; [exact Hrun|]. split; [rewrite Hrun; exact Hc|].
  split.
  { unfold exec, initial_world. cbn [static_algos object logged].
    rewrite Hrun. reflexivity. }
  rewrite (set_str_algo_found _algos "bipop" 2%Z) by reflexivity.
  split; reflexivity.
Qed.

End StrAlgo.

Lemma set_str_algo_unknown_name_witness :
  get_algo (set_algo 5 example_empty) = 5%Z /\
  _algos !! "nonexistent" = None /\
  set_str_algo _algos "nonexistent" (set_algo 5 example_empty)
    = (set_algo 5 example_empty, [unknown_algorithm "nonexistent"]).
Proof.
  split; [reflexivity|]. split; [reflexivity|].
  exact (proj1 (set_str_algo_unknown_name 5 "nonexistent"
                  (set_algo 5 example_empty) eq_refl eq_refl)).
Defined.

(** ** Initial point and bounds *)

Lemma array_read_seq (a : list float) :
  array_read a <$> seq 0 (length a) = a.
Proof.
  apply list_eq. intros i. rewrite list_lookup_fmap.
  destruct (decide (i < length a)) as [Hlt|Hge].
  - rewrite lookup_seq_lt by exact Hlt. simpl.
    destruct (lookup_lt_is_Some_2 a i Hlt) as [x Hx].
    rewrite Hx. f_equal. unfold array_read.
    rewrite nth_lookup, Hx. reflexivity.
  - rewrite lookup_seq_ge by lia. rewrite lookup_ge_None_2 by lia. reflexivity.
Qed.

Lemma array_read_seq_take (a : list float) (n : nat) :
  n <= length a -> array_read a <$> seq 0 n = take n a.
Proof.
  intros Hn. apply list_eq. intros i. rewrite list_lookup_fmap.
  destruct (decide (i < n)) as [Hlt|Hge].
  - rewrite lookup_seq_lt by exact Hlt. rewrite lookup_take_lt by exact Hlt. simpl.
    destruct (lookup_lt_is_Some_2 a i) as [x Hx]; [lia|].
    rewrite Hx. f_equal. unfold array_read.
    rewrite nth_lookup, Hx. reflexivity.
  - rewrite lookup_seq_ge by lia. rewrite lookup_take_ge by lia. reflexivity.
Qed.

Lemma insert_at_boundary {A} (pre l : list A) (x : A) (k : nat) :
  length pre = k -> k < length l ->
  <[k:=x]> (pre ++ drop k l) = (pre ++ [x]) ++ drop (S k) l.
Proof.
  intros Hpre Hk.
  destruct (lookup_lt_is_Some_2 l k Hk) as [y Hy].
  rewrite (drop_S l y k Hy).
  rewrite insert_app_r_alt by lia.
  replace (k - length pre) with 0 by lia. simpl.
  rewrite <- app_assoc. reflexivity.
Qed.

Section Bounds.

Context {TGenoPheno : Type}.

Implicit Types p q : Parameters TGenoPheno.

(** After [k] turns of the loop of the array overload of [set_x0] the first [k]
    coefficients of both vectors are those of the array, and the rest of
    the object is untouched. *)
Lemma set_x0_array_loop (x0 : list float) p (k : nat) :
  k <= length (_x0max p) -> k <= length (_x0min p) ->
  let q := foldl (set_x0_array_body x0) p (seq 0 k) in
  _x0max q = (array_read x0 <$> seq 0 k) ++ drop k (_x0max p) /\
  _x0min q = (array_read x0 <$> seq 0 k) ++ drop k (_x0min p) /\
  outside_bounds q = outside_bounds p.
Proof.
  induction k as [|k IH]; intros Hmax Hmin; cbv zeta.
  - simpl. rewrite !drop_0. auto.
  - rewrite seq_S, foldl_app. cbv zeta in IH. simpl foldl at 1. simpl "+".
    destruct IH as (IHmax & IHmin & IHout); [lia | lia |].
    set (q := foldl (set_x0_array_body x0) p (seq 0 k)) in *.
    assert (Hlen : length (array_read x0 <$> seq 0 k) = k)
      by (rewrite length_fmap, length_seq; reflexivity).
    unfold set_x0_array_body. simpl.
    rewrite IHmax, IHmin, fmap_app. simpl.
    rewrite !insert_at_boundary by (exact Hlen || lia).
    split; [reflexivity|]. split.
    + f_equal. f_equal. f_equal. unfold Eigen.coeff.
      rewrite <- app_assoc. simpl.
      rewrite <- Hlen at 1. apply nth_middle.
    + rewrite <- IHout. destruct q. reflexivity.
Qed.

Lemma set_x0_array_bounds_loop (x0min x0max : list float) p (k : nat) :
  k <= length (_x0min p) -> k <= length (_x0max p) ->
  let q := foldl (set_x0_array_bounds_body x0min x0max) p (seq 0 k) in
  _x0min q = (array_read x0min <$> seq 0 k) ++ drop k (_x0min p) /\
  _x0max q = (array_read x0max <$> seq 0 k) ++ drop k (_x0max p) /\
  outside_bounds q = outside_bounds p.
Proof.
  induction k as [|k IH]; intros Hmin Hmax; cbv zeta.
  - simpl. rewrite !drop_0. auto.
  - rewrite seq_S, foldl_app. cbv zeta in IH. simpl foldl at 1. simpl "+".
    destruct IH as (IHmin & IHmax & IHout); [lia | lia |].
    set (q := foldl (set_x0_array_bounds_body x0min x0max) p (seq 0 k)) in *.
    assert (Hlen : forall a : list float, length (array_read a <$> seq 0 k) = k)
      by (intros a; rewrite length_fmap, length_seq; reflexivity).
    unfold set_x0_array_bounds_body. simpl.
    rewrite IHmin, IHmax, !fmap_app. simpl.
    rewrite !insert_at_boundary by (apply Hlen || lia).
    split; [reflexivity|]. split; [reflexivity|].
    rewrite <- IHout. destruct q. reflexivity.
Qed.

Lemma length_uninitialized (n : Z) : length (Eigen.uninitialized n) = Z.to_nat n.
Proof. apply length_replicate. Qed.

Lemma set_x0_array_spec (x0 : list float) p :
  _x0min (set_x0_array x0 p) = array_read x0 <$> seq 0 (Z.to_nat (_dim p)) /\
  _x0max (set_x0_array x0 p) = array_read x0 <$> seq 0 (Z.to_nat (_dim p)) /\
  outside_bounds (set_x0_array x0 p) = outside_bounds p.
Proof.
  unfold set_x0_array. cbv zeta.
  set (p1 := assign_x0min _ _).
  assert (Hdim : _dim p1 = _dim p) by reflexivity.
  assert (Hmax : _x0max p1 = Eigen.uninitialized (_dim p)) by reflexivity.
  assert (Hmin : _x0min p1 = Eigen.uninitialized (_dim p)) by reflexivity.
  assert (Hout : outside_bounds p1 = outside_bounds p) by (destruct p; reflexivity).
  rewrite Hdim.
  destruct (set_x0_array_loop x0 p1 (Z.to_nat (_dim p))) as (Emax & Emin & Eout).
  - rewrite Hmax, length_uninitialized. lia.
  - rewrite Hmin, length_uninitialized. lia.
  - rewrite Emax, Emin, Eout, Hout, Hmax, Hmin.
    rewrite drop_ge by (rewrite length_uninitialized; lia).
    rewrite app_nil_r. auto.
Qed.

Lemma set_x0_array_bounds_spec (x0min x0max : list float) p :
  _x0min (set_x0_array_bounds x0min x0max p)
    = array_read x0min <$> seq 0 (Z.to_nat (_dim p)) /\
  _x0max (set_x0_array_bounds x0min x0max p)
    = array_read x0max <$> seq 0 (Z.to_nat (_dim p)) /\
  outside_bounds (set_x0_array_bounds x0min x0max p) = outside_bounds p.
Proof.
  unfold set_x0_array_bounds. cbv zeta.
  set (p1 := assign_x0max _ _).
  assert (Hdim : _dim p1 = _dim p) by reflexivity.
  assert (Hmax : _x0max p1 = Eigen.uninitialized (_dim p)) by reflexivity.
  assert (Hmin : _x0min p1 = Eigen.uninitialized (_dim p)) by reflexivity.
  assert (Hout : outside_bounds p1 = outside_bounds p) by (destruct p; reflexivity).
  rewrite Hdim.
  destruct (set_x0_array_bounds_loop x0min x0max p1 (Z.to_nat (_dim p)))
    as (Emin & Emax & Eout).
  - rewrite Hmin, length_uninitialized. lia.
  - rewrite Hmax, length_uninitialized. lia.
  - rewrite Emax, Emin, Eout, Hout, Hmax, Hmin.
    rewrite drop_ge by (rewrite length_uninitialized; lia).
    rewrite !app_nil_r. auto.
Qed.

(** No overload of [set_x0] touches a member other than the two bounds. *)
Lemma set_x0_outside_bounds (c : x0_call) p :
  outside_bounds (set_x0 c p) = outside_bounds p.
Proof.
  destruct c; simpl; try (destruct p; reflexivity).
  - apply set_x0_array_spec.
  - apply set_x0_array_bounds_spec.
Qed.

Lemma outside_bounds_dim p q : outside_bounds p = outside_bounds q -> _dim p = _dim q.
Proof. intros Heq. exact (f_equal _dim Heq). Qed.

Lemma outside_bounds_lambda p q :
  outside_bounds p = outside_bounds q -> _lambda p = _lambda q.
Proof. intros Heq. exact (f_equal _lambda Heq). Qed.

Lemma set_x0_dim (c : x0_call) p : _dim (set_x0 c p) = _dim p.
Proof. apply outside_bounds_dim, set_x0_outside_bounds. Qed.

(** What the getters return after one call, in terms of the object's
    dimension and of the arguments only. *)
Lemma set_x0_bounds_read (c : x0_call) p :
  (get_x0min (set_x0 c p), get_x0max (set_x0 c p)) =
  match c with
  | X0_scalar x0 => (Eigen.Constant (_dim p) x0, Eigen.Constant (_dim p) x0)
  | X0_array x0 =>
      (array_read x0 <$> seq 0 (Z.to_nat (_dim p)),
       array_read x0 <$> seq 0 (Z.to_nat (_dim p)))
  | X0_scalar_bounds x0min x0max =>
      (Eigen.Constant (_dim p) x0min, Eigen.Constant (_dim p) x0max)
  | X0_vec x0 => (x0, x0)
  | X0_array_bounds x0min x0max =>
      (array_read x0min <$> seq 0 (Z.to_nat (_dim p)),
       array_read x0max <$> seq 0 (Z.to_nat (_dim p)))
  | X0_vec_bounds x0min x0max => (x0min, x0max)
  end.
Proof.
  unfold get_x0min, get_x0max.
  destruct c; simpl; try reflexivity.
  - destruct (set_x0_array_spec x0 p) as (-> & -> & _). reflexivity.
  - destruct (set_x0_array_bounds_spec x0min x0max p) as (-> & -> & _). reflexivity.
Qed.

(** One call whose arrays can be read stores what the specification
    says. *)
Lemma set_x0_bounds_readable (c : x0_call) p :
  x0_readable (_dim p) c ->
  (get_x0min (set_x0 c p), get_x0max (set_x0 c p)) = x0_bounds (_dim p) c.
Proof.
  intros Hread. rewrite set_x0_bounds_read.
  destruct c; simpl in *; try reflexivity.
  - rewrite array_read_seq_take by exact Hread. reflexivity.
  - destruct Hread as [Hmin Hmax].
    rewrite !array_read_seq_take by assumption. reflexivity.
Qed.

Lemma set_x0_sequence_dim (cs : list x0_call) p :
  _dim (foldl (fun p c => set_x0 c p) p cs) = _dim p.
Proof.
  revert p. induction cs as [|c cs IH]; intros p; [reflexivity|].
  simpl. rewrite IH. apply set_x0_dim.
Qed.

(** The bounds after a call depend on the object through its dimension
    only. *)
Lemma set_x0_bounds_only_dim (c : x0_call) p q :
  _dim p = _dim q ->
  (get_x0min (set_x0 c p), get_x0max (set_x0 c p)) =
  (get_x0min (set_x0 c q), get_x0max (set_x0 c q)).
Proof. intros Hdim. rewrite !set_x0_bounds_read, Hdim. reflexivity. Qed.

(** C6. After any sequence of calls of the [set_x0] overloads on an
    object of dimension [_dim >= 0] (each array given to a pointer
    overload holding at least the [_dim] values the overload reads), the
    getters return exactly the vectors of the last call: a scalar repeated
    [_dim] times, the [_dim] values of an array, a [dVec] as it was given.
    Nothing of the earlier calls remains: the result is the one of the
    last call made alone. *)
Theorem set_x0_last_call_wins (cs : list x0_call) (c : x0_call) p :
  (0 <= _dim p)%Z ->
  Forall (x0_readable (_dim p)) (cs ++ [c]) ->
  let q := foldl (fun p c => set_x0 c p) p (cs ++ [c]) in
  (get_x0min q, get_x0max q) = x0_bounds (_dim p) c /\
  (get_x0min q, get_x0max q) = (get_x0min (set_x0 c p), get_x0max (set_x0 c p)).
Proof.
  intros _ Hread. cbv zeta. rewrite foldl_app. simpl.
  assert (Hc : x0_readable (_dim p) c).
  { rewrite Forall_app, Forall_singleton in Hread. apply Hread. }
  set (p' := foldl (fun p c => set_x0 c p) p cs).
  assert (Hdim : _dim p' = _dim p) by apply set_x0_sequence_dim.
  rewrite (set_x0_bounds_only_dim c p' p Hdim).
  split; [|reflexivity].
  apply set_x0_bounds_readable, Hc.
Qed.

Lemma ctor_before_set_x0_dim (dim lambda seed lam' seed' : Z) (gp : TGenoPheno) :
  let p := member_init dim lambda in_class_max_iter seed gp in
  let p := if (_lambda p =? -1)%Z then assign_lambda lam' p else p in
  let p := if (_seed p =? 0)%Z then assign_seed seed' p else p in
  _dim p = dim.
Proof.
  cbv zeta. simpl.
  destruct (lambda =? -1)%Z; simpl; destruct (seed =? 0)%Z; reflexivity.
Qed.

Lemma Parameters_ctor_dim now dim x0 lambda seed (gp : TGenoPheno) :
  _dim (Parameters_ctor now dim x0 lambda seed gp) = dim.
Proof.
  unfold Parameters_ctor. cbv zeta.
  rewrite (outside_bounds_dim _ _ (proj2 (proj2 (set_x0_array_spec x0 _)))).
  apply ctor_before_set_x0_dim.
Qed.

(** C7. The constructor given [dim > 0] and an initial point of [dim]
    values stores that point as both bounds; broadcasting a scalar with
    [set_x0] on the constructed object stores the vector that repeats it
    [dim] times as both bounds. *)
Theorem Parameters_ctor_degenerate_bounds now dim x0 lambda seed (gp : TGenoPheno) :
  (0 < dim)%Z ->
  length x0 = Z.to_nat dim ->
  let p := Parameters_ctor now dim x0 lambda seed gp in
  get_x0min p = x0 /\ get_x0max p = x0 /\
  (forall v : float,
     get_x0min (set_x0_scalar v p) = replicate (Z.to_nat dim) v /\
     get_x0max (set_x0_scalar v p) = replicate (Z.to_nat dim) v).
Proof.
  intros Hdim Hlen. cbv zeta.
  split; [|split].
  - unfold Parameters_ctor, get_x0min. cbv zeta.
    destruct (set_x0_array_spec x0
      (let p := member_init dim lambda in_class_max_iter seed gp in
       let p := if (_lambda p =? -1)%Z
                then assign_lambda (default_lambda (_dim p)) p else p in
       if (_seed p =? 0)%Z then assign_seed (Int.to_uint64 now) p else p))
      as (Emin & _ & _).
    cbv zeta in Emin. rewrite Emin, ctor_before_set_x0_dim, <- Hlen.
    apply array_read_seq.
  - unfold Parameters_ctor, get_x0max. cbv zeta.
    destruct (set_x0_array_spec x0
      (let p := member_init dim lambda in_class_max_iter seed gp in
       let p := if (_lambda p =? -1)%Z
                then assign_lambda (default_lambda (_dim p)) p else p in
       if (_seed p =? 0)%Z then assign_seed (Int.to_uint64 now) p else p))
      as (_ & Emax & _).
    cbv zeta in Emax. rewrite Emax, ctor_before_set_x0_dim, <- Hlen.
    apply array_read_seq.
  - intros v. unfold get_x0min, get_x0max, set_x0_scalar. simpl.
    rewrite Parameters_ctor_dim. split; reflexivity.
Qed.

End Bounds.

Lemma set_x0_last_call_wins_witness :
  (0 <= _dim (example_zeros 2))%Z /\
  Forall (x0_readable (_dim (example_zeros 2)))
    ([X0_array [7%float; 8%float; 9%float];
      X0_vec_bounds [1%float] [2%float; 3%float];
      X0_array_bounds [1%float; 2%float] [3%float; 4%float]]
     ++ [X0_scalar 5%float]) /\
  (get_x0min
     (foldl (fun p c => set_x0 c p) (example_zeros 2)
        ([X0_array [7%float; 8%float; 9%float];
          X0_vec_bounds [1%float] [2%float; 3%float];
          X0_array_bounds [1%float; 2%float] [3%float; 4%float]]
         ++ [X0_scalar 5%float])),
   get_x0max
     (foldl (fun p c => set_x0 c p) (example_zeros 2)
        ([X0_array [7%float; 8%float; 9%float];
          X0_vec_bounds [1%float] [2%float; 3%float];
          X0_array_bounds [1%float; 2%float] [3%float; 4%float]]
         ++ [X0_scalar 5%float])))
    = ([5%float; 5%float], [5%float; 5%float]).
Proof.
  assert (Hdim : _dim (example_zeros 2) = 2%Z) by apply Parameters_ctor_dim.
  assert (Hpos : (0 <= _dim (example_zeros 2))%Z) by (rewrite Hdim; lia).
  assert (Hread : Forall (x0_readable (_dim (example_zeros 2)))
            ([X0_array [7%float; 8%float; 9%float];
              X0_vec_bounds [1%float] [2%float; 3%float];
              X0_array_bounds [1%float; 2%float] [3%float; 4%float]]
             ++ [X0_scalar 5%float])).
  { rewrite Hdim. simpl. repeat constructor. }
  split; [exact Hpos|]. split; [exact Hread|].
  rewrite (proj1 (set_x0_last_call_wins _ _ _ Hpos Hread)), Hdim.
  reflexivity.
Defined.

(** The scenario of C7: [dim=5], [x0=[0,0,0,0,0]], default [lambda] and
    [seed]. *)
Lemma Parameters_ctor_degenerate_bounds_witness :
  (0 < 5)%Z /\
  length [0%float; 0%float; 0%float; 0%float; 0%float] = Z.to_nat 5 /\
  get_x0min (example_zeros 5) = [0%float; 0%float; 0%float; 0%float; 0%float] /\
  get_x0max (example_zeros 5) = [0%float; 0%float; 0%float; 0%float; 0%float].
Proof.
  split; [lia|]. split; [reflexivity|].
  destruct (Parameters_ctor_degenerate_bounds 1414141414 5
              [0%float; 0%float; 0%float; 0%float; 0%float]
              lambda_unspecified seed_unspecified IdentityGenoPheno)
    as (Hmin & Hmax & _); [lia | reflexivity |].
  split; [exact Hmin | exact Hmax].
Defined.

(** ** Dimension and population size are fixed at construction *)

Section Frame.

Context {TGenoPheno : Type}.

Implicit Types (p : Parameters TGenoPheno) (w : World TGenoPheno).

Lemma set_seed_outside_seed now seed p :
  assign_seed 0 (set_seed now seed p) = assign_seed 0 p.
Proof. unfold set_seed. destruct (_seed p =? 0)%Z; destruct p; reflexivity. Qed.

Lemma exec_outside_bounds_dim_lambda (c : call TGenoPheno) w :
  _dim (object (exec c w)) = _dim (object w) /\
  _lambda (object (exec c w)) = _lambda (object w).
Proof.
  destruct c; simpl; try (split; reflexivity).
  - split; [apply outside_bounds_dim | apply outside_bounds_lambda];
      apply set_x0_outside_bounds.
  - split.
    + exact (f_equal _dim (set_seed_outside_seed now seed (object w))).
    + exact (f_equal _lambda (set_seed_outside_seed now seed (object w))).
  - unfold set_str_algo. destruct (static_algos w !! algo); split; reflexivity.
Qed.

(** C9. No call of a public modifier (the six [set_x0] overloads,
    [set_fixed_p], [unset_fixed_p], [set_max_iter], [set_max_fevals],
    [set_ftarget], [reset_ftarget], [set_seed], [set_ftolerance],
    [set_xtolerance], [set_quiet], [set_algo], [set_str_algo], [set_gp],
    [set_fplot], [set_gradient], [set_edm], [set_mt_feval],
    [set_max_hist]), and no sequence of such calls, changes what [dim()]
    and [lambda()] return. *)
Theorem modifiers_keep_dim_and_lambda (cs : list (call TGenoPheno)) w :
  dim (object (exec_all cs w)) = dim (object w) /\
  lambda (object (exec_all cs w)) = lambda (object w).
Proof.
  unfold dim, lambda, exec_all. revert w.
  induction cs as [|c cs IH]; intros w; [split; reflexivity|].
  simpl. destruct (IH (exec c w)) as [IHdim IHlambda].
  destruct (exec_outside_bounds_dim_lambda c w) as [Hdim Hlambda].
  split; congruence.
Qed.

End Frame.

(** ** Constructors *)

Section Constructors.

Context {TGenoPheno : Type} `{DefaultConstructible TGenoPheno}.

Lemma Parameters_ctor_outside now dimension x0 lam seed (gp : TGenoPheno) :
  outside_bounds (Parameters_ctor now dimension x0 lam seed gp) =
  outside_bounds
    (let p := member_init dimension lam in_class_max_iter seed gp in
     let p := if (_lambda p =? -1)%Z then assign_lambda (default_lambda (_dim p)) p else p in
     if (_seed p =? 0)%Z then assign_seed (Int.to_uint64 now) p else p).
Proof. unfold Parameters_ctor. cbv zeta. apply set_x0_array_spec. Qed.

Lemma Parameters_ctor_max_iter now dimension x0 lam seed (gp : TGenoPheno) :
  _max_iter (Parameters_ctor now dimension x0 lam seed gp) = (-1)%Z.
Proof.
  change (_max_iter (outside_bounds (Parameters_ctor now dimension x0 lam seed gp))
          = (-1)%Z).
  rewrite Parameters_ctor_outside. cbv zeta. simpl.
  destruct (lam =? -1)%Z; simpl; destruct (seed =? 0)%Z; reflexivity.
Qed.

(** C10. The empty constructor gives [dim == 0], [lambda == 0] and
    [_max_iter == 0], where the in-class initialisers of [_lambda] and
    [_max_iter] are -1 (the value the other constructor leaves in
    [_max_iter]); [_max_fevals] is -1, [_seed] 0, [_ftarget] minus
    infinity, both tolerances 1e-12, [_algo] 0, [_max_hist] 100 and
    [_fixed_p] empty. *)
Theorem Parameters_empty_fields :
  dim Parameters_empty = 0%Z /\
  lambda Parameters_empty = 0%Z /\
  get_max_iter Parameters_empty = 0%Z /\
  in_class_lambda = (-1)%Z /\
  in_class_max_iter = (-1)%Z /\
  get_max_iter Parameters_empty <> in_class_max_iter /\
  (forall now dimension x0 lam seed (gp : TGenoPheno),
     get_max_iter (Parameters_ctor now dimension x0 lam seed gp) = in_class_max_iter) /\
  get_max_fevals Parameters_empty = (-1)%Z /\
  _seed Parameters_empty = 0%Z /\
  get_ftarget Parameters_empty = neg_infinity /\
  get_ftolerance Parameters_empty = 1e-12%float /\
  get_xtolerance Parameters_empty = 1e-12%float /\
  get_algo Parameters_empty = 0%Z /\
  _max_hist Parameters_empty = 100%Z /\
  _fixed_p Parameters_empty = ∅.
Proof.
  repeat (split; [reflexivity|]).
  split; [discriminate|].
  split; [apply Parameters_ctor_max_iter|].
  repeat (split; [reflexivity|]). reflexivity.
Qed.

End Constructors.

(** ** Seed *)

Section Seed.

Context {TGenoPheno : Type}.

Implicit Type p : Parameters TGenoPheno.

Lemma set_seed_zero now v p :
  _seed p = 0%Z -> set_seed now v p = assign_seed (Int.to_uint64 now) p.
Proof. unfold set_seed. intros ->. reflexivity. Qed.

Lemma set_seed_nonzero now v p :
  _seed p <> 0%Z -> set_seed now v p = assign_seed (Int.to_uint64 v) p.
Proof.
  unfold set_seed. intros Hs.
  destruct (Z.eqb_spec (_seed p) 0) as [Heq|_]; [contradiction|reflexivity].
Qed.

Lemma Parameters_ctor_seed now dimension x0 lam seed (gp : TGenoPheno) :
  _seed (Parameters_ctor now dimension x0 lam seed gp) =
  if (seed =? 0)%Z then Int.to_uint64 now else seed.
Proof.
  change (_seed (outside_bounds (Parameters_ctor now dimension x0 lam seed gp))
          = if (seed =? 0)%Z then Int.to_uint64 now else seed).
  unfold Parameters_ctor. cbv zeta.
  rewrite (proj2 (proj2 (set_x0_array_spec x0 _))). simpl.
  destruct (lam =? -1)%Z; simpl; destruct (seed =? 0)%Z; reflexivity.
Qed.

(** C5 (amended). With [s] the stored seed and [v] the [int] given to
    [set_seed]: when [s == 0] the call stores the clock reading and does
    not look at [v]; when [s != 0] it stores [v] converted to
    [uint64_t], that is [v] modulo 2^64, which is [v] itself exactly
    when [v >= 0] and is [v + 2^64] when [v < 0]; in both cases of [v],
    [get_seed] then returns [v]. The constructor given seed 0 stores the
    clock reading of construction time, and stores any other seed as it
    is. *)
Theorem set_seed_asymmetry (s v now : Z) p :
  _seed p = s ->
  Int.int_range v ->
  (s = 0%Z -> set_seed now v p = assign_seed (Int.to_uint64 now) p /\
              _seed (set_seed now v p) = Int.to_uint64 now) /\
  (s <> 0%Z -> _seed (set_seed now v p) = Int.to_uint64 v /\
               ((0 <= v)%Z -> _seed (set_seed now v p) = v) /\
               ((v < 0)%Z -> _seed (set_seed now v p) = (v + 2 ^ 64)%Z) /\
               get_seed (set_seed now v p) = v) /\
  (forall dimension x0 lam (gp : TGenoPheno),
     _seed (Parameters_ctor now dimension x0 lam 0 gp) = Int.to_uint64 now) /\
  (forall dimension x0 lam seed (gp : TGenoPheno),
     seed <> 0%Z -> _seed (Parameters_ctor now dimension x0 lam seed gp) = seed).
Proof.
  intros Hs Hv. unfold Int.int_range in Hv. split; [|split; [|split]].
  - intros ->. rewrite set_seed_zero by exact Hs. split; reflexivity.
  - intros Hnz. unfold get_seed.
    rewrite set_seed_nonzero by congruence. simpl.
    split; [reflexivity|]. split; [|split].
    + intros Hpos. apply to_uint64_id. unfold Int.uint64_range. lia.
    + intros Hneg. apply to_uint64_negative. lia.
    + apply to_int_to_uint64. exact Hv.
  - intros. rewrite Parameters_ctor_seed. reflexivity.
  - intros dimension x0 lam seed gp Hseed. rewrite Parameters_ctor_seed.
    destruct (Z.eqb_spec seed 0) as [Heq|_]; [contradiction|reflexivity].
Qed.

End Seed.

Lemma set_seed_asymmetry_witness :
  _seed example_seeded = 42%Z /\
  Int.int_range 7 /\
  _seed (set_seed 1515151515 7 example_seeded) = 7%Z.
Proof.
  assert (Hs : _seed example_seeded = 42%Z) by reflexivity.
  assert (Hv : Int.int_range 7) by (unfold Int.int_range; lia).
  split; [exact Hs|]. split; [exact Hv|].
  destruct (set_seed_asymmetry 42 7 1515151515 example_seeded Hs Hv)
    as (_ & Hnz & _).
  destruct Hnz as (_ & Hpos & _); [lia|].
  apply Hpos. lia.
Defined.

(** C5 (as stated) fails for a negative argument: on an object whose
    seed is 42, [set_seed(-1)] stores 18446744073709551615, not -1. *)
Lemma set_seed_negative_not_verbatim :
  _seed example_seeded <> 0%Z /\
  _seed (set_seed 1515151515 (-1) example_seeded) = 18446744073709551615%Z /\
  _seed (set_seed 1515151515 (-1) example_seeded) <> (-1)%Z.
Proof.
  assert (Hrun : _seed (set_seed 1515151515 (-1) example_seeded)
                 = 18446744073709551615%Z) by reflexivity.
  split; [discriminate|]. split; [exact Hrun|].
  rewrite Hrun. discriminate.
Qed.

(** ** The population-size heuristic *)

Section Heuristic.

Local Open Scope R_scope.

Lemma Int_part_between (x : R) (k : Z) :
  IZR k <= x < IZR k + 1 -> Int_part x = k.
Proof. intros [Hlo Hhi]. symmetry. apply Int_part_spec. lra. Qed.

Lemma Int_part_IZR (k : Z) : Int_part (IZR k) = k.
Proof. apply Int_part_between. lra. Qed.

Lemma Int_part_shift (k : Z) (x : R) : Int_part (IZR k + x) = (k + Int_part x)%Z.
Proof.
  apply Int_part_between. rewrite plus_IZR.
  destruct (base_Int_part x) as [Hlo Hhi]. lra.
Qed.

Lemma double_to_int_IZR (k : Z) : (0 <= k)%Z -> double_to_int (IZR k) = k.
Proof.
  intros Hk. unfold double_to_int.
  destruct (Rle_dec 0 (IZR k)) as [_|Hneg].
  - apply Int_part_IZR.
  - exfalso. apply Hneg. apply IZR_le. exact Hk.
Qed.

Lemma ln_nonneg (x : R) : 1 <= x -> 0 <= ln x.
Proof.
  intros [Hlt|<-].
  - rewrite <- ln_1. left. apply ln_increasing; lra.
  - rewrite ln_1. lra.
Qed.

Lemma exp_INR_mult (n : nat) (y : R) : exp (INR n * y) = exp y ^ n.
Proof.
  induction n as [|n IH].
  - simpl. rewrite Rmult_0_l. apply exp_0.
  - rewrite S_INR, Rmult_plus_distr_r, Rmult_1_l, exp_plus, IH. simpl. ring.
Qed.

(** [(1 + x/n)^n <= exp x] and [(1 - x/n)^n <= exp (-x)] *)
Lemma exp_lower_bound (n : nat) (x y : R) :
  INR n * y = x -> 0 <= 1 + y -> (1 + y) ^ n <= exp x.
Proof.
  intros <- Hy. rewrite exp_INR_mult. apply pow_incr.
  split; [exact Hy | apply exp_ineq1_le].
Qed.

Lemma pow_ratio (a b : Z) (n : nat) :
  (0 < b)%Z -> (IZR a / IZR b) ^ n = IZR (a ^ Z.of_nat n) / IZR (b ^ Z.of_nat n).
Proof.
  intros Hb. unfold Rdiv. rewrite Rpow_mult_distr, pow_inv, !pow_IZR. reflexivity.
Qed.

(** [K * b^n < a^n], checked on integers, gives [K < exp x] when
    [a/b = 1 + x/n]. *)
Lemma exp_above (K a b : Z) (n : nat) (x : R) :
  (0 < b)%Z -> (0 <= a)%Z ->
  INR n * (IZR a / IZR b - 1) = x ->
  (K * b ^ Z.of_nat n < a ^ Z.of_nat n)%Z ->
  IZR K < exp x.
Proof.
  intros Hb Ha Hx Hlt.
  assert (HbR : 0 < IZR b) by (apply IZR_lt; exact Hb).
  assert (HaR : 0 <= IZR a) by (apply IZR_le; exact Ha).
  apply Rlt_le_trans with ((IZR a / IZR b) ^ n).
  - rewrite pow_ratio by exact Hb.
    assert (Hpow : 0 < IZR (b ^ Z.of_nat n)).
    { apply IZR_lt. apply Z.pow_pos_nonneg; lia. }
    apply Rmult_lt_reg_r with (IZR (b ^ Z.of_nat n)); [exact Hpow|].
    unfold Rdiv. rewrite Rmult_assoc, Rinv_l, Rmult_1_r by lra.
    rewrite <- mult_IZR. apply IZR_lt. exact Hlt.
  - replace (IZR a / IZR b) with (1 + (IZR a / IZR b - 1)) by ring.
    apply exp_lower_bound; [exact Hx|].
    replace (1 + (IZR a / IZR b - 1)) with (IZR a / IZR b) by ring.
    apply Rle_mult_inv_pos; assumption.
Qed.

(** [b^n <= K * a^n], checked on integers, gives [exp x <= K] when
    [a/b = 1 - x/n]. *)
Lemma exp_below (K a b : Z) (n : nat) (x : R) :
  (0 < b)%Z -> (0 < a)%Z ->
  INR n * (1 - IZR a / IZR b) = x ->
  (b ^ Z.of_nat n <= K * a ^ Z.of_nat n)%Z ->
  exp x <= IZR K.
Proof.
  intros Hb Ha Hx Hle.
  assert (HbR : 0 < IZR b) by (apply IZR_lt; exact Hb).
  assert (HaR : 0 < IZR a) by (apply IZR_lt; exact Ha).
  assert (Hratio : 0 < IZR a / IZR b) by (apply Rdiv_lt_0_compat; assumption).
  assert (Hlow : (IZR a / IZR b) ^ n <= exp (- x)).
  { replace (IZR a / IZR b) with (1 + (IZR a / IZR b - 1)) by ring.
    apply exp_lower_bound; [rewrite <- Hx; ring|].
    replace (1 + (IZR a / IZR b - 1)) with (IZR a / IZR b) by ring. lra. }
  rewrite exp_Ropp in Hlow.
  assert (Hexp : 0 < exp x) by apply exp_pos.
  assert (Hpa : 0 < IZR (a ^ Z.of_nat n)) by (apply IZR_lt, Z.pow_pos_nonneg; lia).
  assert (Hpb : 0 < IZR (b ^ Z.of_nat n)) by (apply IZR_lt, Z.pow_pos_nonneg; lia).
  rewrite pow_ratio in Hlow by exact Hb.
  apply IZR_le in Hle. rewrite mult_IZR in Hle.
  set (A := IZR (a ^ Z.of_nat n)) in *. set (B := IZR (b ^ Z.of_nat n)) in *.
  assert (Hprod : exp x * A <= B).
  { apply (Rmult_le_compat_r (exp x * B)) in Hlow; [|nra].
    replace (A / B * (exp x * B)) with (exp x * A) in Hlow by (field; lra).
    replace (/ exp x * (exp x * B)) with B in Hlow by (field; lra).
    exact Hlow. }
  apply Rmult_le_reg_r with A; [exact Hpa|]. lra.
Qed.


(** The same bounds in two stages, which keeps the integers to compare
    small: [c/d <= (a/b)^n] and then [(c/d)^m] against [K], for
    [exp t] with [t = m n (a/b - 1)]. *)
Lemma staged_lower (c d a b : Z) (n m : nat) (t : R) :
  (0 < b)%Z -> (0 <= a)%Z -> (0 < d)%Z -> (0 <= c)%Z ->
  INR m * (INR n * (IZR a / IZR b - 1)) = t ->
  (c * b ^ Z.of_nat n <= d * a ^ Z.of_nat n)%Z ->
  (IZR c / IZR d) ^ m <= exp t.
Proof.
  intros Hb Ha Hd Hc Ht Hfirst.
  assert (HbR : 0 < IZR b) by (apply IZR_lt; exact Hb).
  assert (HaR : 0 <= IZR a) by (apply IZR_le; exact Ha).
  assert (HdR : 0 < IZR d) by (apply IZR_lt; exact Hd).
  assert (HcR : 0 <= IZR c) by (apply IZR_le; exact Hc).
  assert (Hstage : IZR c / IZR d <= exp (INR n * (IZR a / IZR b - 1))).
  { apply Rle_trans with ((IZR a / IZR b) ^ n).
    - rewrite pow_ratio by exact Hb.
      assert (Hpow : 0 < IZR (b ^ Z.of_nat n)) by (apply IZR_lt, Z.pow_pos_nonneg; lia).
      apply IZR_le in Hfirst. rewrite !mult_IZR in Hfirst.
      apply Rmult_le_reg_r with (IZR d * IZR (b ^ Z.of_nat n)); [nra|].
      replace (IZR c / IZR d * (IZR d * IZR (b ^ Z.of_nat n)))
        with (IZR c * IZR (b ^ Z.of_nat n)) by (field; lra).
      replace (IZR (a ^ Z.of_nat n) / IZR (b ^ Z.of_nat n)
               * (IZR d * IZR (b ^ Z.of_nat n)))
        with (IZR d * IZR (a ^ Z.of_nat n)) by (field; lra).
      exact Hfirst.
    - replace (IZR a / IZR b) with (1 + (IZR a / IZR b - 1)) at 1 by ring.
      apply exp_lower_bound; [reflexivity|].
      replace (1 + (IZR a / IZR b - 1)) with (IZR a / IZR b) by ring.
      apply Rle_mult_inv_pos; assumption. }
  rewrite <- Ht, exp_INR_mult.
  apply pow_incr. split; [|exact Hstage].
  apply Rle_mult_inv_pos; assumption.
Qed.

Lemma exp_above_staged (K c d a b : Z) (n m : nat) (t : R) :
  (0 < b)%Z -> (0 <= a)%Z -> (0 < d)%Z -> (0 <= c)%Z ->
  INR m * (INR n * (IZR a / IZR b - 1)) = t ->
  (c * b ^ Z.of_nat n <= d * a ^ Z.of_nat n)%Z ->
  (K * d ^ Z.of_nat m < c ^ Z.of_nat m)%Z ->
  IZR K < exp t.
Proof.
  intros Hb Ha Hd Hc Ht Hfirst Hsecond.
  assert (HdR : 0 < IZR d) by (apply IZR_lt; exact Hd).
  apply Rlt_le_trans with ((IZR c / IZR d) ^ m);
    [|apply (staged_lower c d a b n m t); assumption].
  rewrite pow_ratio by exact Hd.
  assert (Hpow : 0 < IZR (d ^ Z.of_nat m)) by (apply IZR_lt, Z.pow_pos_nonneg; lia).
  apply Rmult_lt_reg_r with (IZR (d ^ Z.of_nat m)); [exact Hpow|].
  unfold Rdiv. rewrite Rmult_assoc, Rinv_l, Rmult_1_r by lra.
  rewrite <- mult_IZR. apply IZR_lt. exact Hsecond.
Qed.

Lemma exp_below_staged (K c d a b : Z) (n m : nat) (t : R) :
  (0 < b)%Z -> (0 <= a)%Z -> (0 < d)%Z -> (0 < c)%Z ->
  INR m * (INR n * (1 - IZR a / IZR b)) = t ->
  (c * b ^ Z.of_nat n <= d * a ^ Z.of_nat n)%Z ->
  (d ^ Z.of_nat m <= K * c ^ Z.of_nat m)%Z ->
  exp t <= IZR K.
Proof.
  intros Hb Ha Hd Hc Ht Hfirst Hsecond.
  assert (Hlow : (IZR c / IZR d) ^ m <= exp (- t)).
  { apply (staged_lower c d a b n m (- t)); try assumption; [lia|].
    rewrite <- Ht. ring. }
  rewrite exp_Ropp in Hlow.
  assert (Hexp : 0 < exp t) by apply exp_pos.
  assert (Hpc : 0 < IZR (c ^ Z.of_nat m)) by (apply IZR_lt, Z.pow_pos_nonneg; lia).
  assert (Hpd : 0 < IZR (d ^ Z.of_nat m)) by (apply IZR_lt, Z.pow_pos_nonneg; lia).
  rewrite pow_ratio in Hlow by exact Hd.
  apply IZR_le in Hsecond. rewrite mult_IZR in Hsecond.
  set (C := IZR (c ^ Z.of_nat m)) in *. set (D := IZR (d ^ Z.of_nat m)) in *.
  assert (Hprod : exp t * C <= D).
  { apply (Rmult_le_compat_r (exp t * D)) in Hlow; [|nra].
    replace (C / D * (exp t * D)) with (exp t * C) in Hlow by (field; lra).
    replace (/ exp t * (exp t * D)) with D in Hlow by (field; lra).
    exact Hlow. }
  apply Rmult_le_reg_r with C; [exact Hpc|]. lra.
Qed.

Lemma INR_32 : INR 32 = 32.
Proof. rewrite INR_IZR_INZ. reflexivity. Qed.

Lemma INR_64 : INR 64 = 64.
Proof. rewrite INR_IZR_INZ. reflexivity. Qed.

Lemma le_ln_of_exp_le (a y : R) : exp a <= y -> a <= ln y.
Proof.
  intros Hle.
  assert (Hy : 0 < y) by (eapply Rlt_le_trans; [apply exp_pos | exact Hle]).
  destruct (Rle_or_lt a (ln y)) as [Hok|Hlt]; [exact Hok|].
  apply exp_increasing in Hlt. rewrite exp_ln in Hlt by exact Hy. lra.
Qed.

Lemma ln_lt_of_lt_exp (b y : R) : 0 < y -> y < exp b -> ln y < b.
Proof.
  intros Hy Hlt. apply exp_lt_inv. rewrite exp_ln by exact Hy. exact Hlt.
Qed.

Lemma three_ln (d : Z) : (0 < d)%Z -> 3 * ln (IZR d) = ln (IZR (d ^ 3)).
Proof.
  intros Hd. assert (HdR : 0 < IZR d) by (apply IZR_lt; exact Hd).
  change 3%Z with (Z.of_nat 3). rewrite <- pow_IZR, ln_pow by exact HdR.
  simpl. ring.
Qed.

(** [3 ln d] lies in [[lo, hi)] as soon as [exp lo <= d^3 < exp hi]. *)
Lemma three_ln_between (d : Z) (lo hi : R) :
  (0 < d)%Z ->
  exp lo <= IZR (d ^ 3) -> IZR (d ^ 3) < exp hi ->
  lo <= 3 * ln (IZR d) < hi.
Proof.
  intros Hd Hlo Hhi. rewrite three_ln by exact Hd. split.
  - apply le_ln_of_exp_le, Hlo.
  - apply ln_lt_of_lt_exp; [|exact Hhi].
    apply IZR_lt. apply Z.pow_pos_nonneg; lia.
Qed.

Lemma three_ln_10 : 6 + / 32 <= 3 * ln 10 < 7 - / 32.
Proof.
  apply (three_ln_between 10); [lia| |].
  - apply (exp_below_staged 1000 888798947 (2 ^ 30) 32575 32768 32 32);
      [lia | lia | lia | lia | | |].
    + rewrite INR_32. field.
    + apply Z.leb_le. vm_compute. reflexivity.
    + apply Z.leb_le. vm_compute. reflexivity.
  - apply (exp_above_staged 1000 1334004528 (2 ^ 30) 32991 32768 32 32);
      [lia | lia | lia | lia | | |].
    + rewrite INR_32. field.
    + apply Z.leb_le. vm_compute. reflexivity.
    + apply Z.ltb_lt. vm_compute. reflexivity.
Qed.

Lemma three_ln_30 : 10 + / 32 <= 3 * ln 30 < 11 - / 32.
Proof.
  apply (three_ln_between 30); [lia| |].
  - apply (exp_below_staged 27000 783587523 (2 ^ 30) 32447 32768 32 32);
      [lia | lia | lia | lia | | |].
    + rewrite INR_32. field.
    + apply Z.leb_le. vm_compute. reflexivity.
    + apply Z.leb_le. vm_compute. reflexivity.
  - apply (exp_above_staged 27000 1509985706 (2 ^ 30) 33119 32768 32 32);
      [lia | lia | lia | lia | | |].
    + rewrite INR_32. field.
    + apply Z.leb_le. vm_compute. reflexivity.
    + apply Z.ltb_lt. vm_compute. reflexivity.
Qed.

Lemma three_ln_5 : 4 + / 32 <= 3 * ln 5 < 5 - / 32.
Proof.
  apply (three_ln_between 5); [lia| |].
  - apply (exp_below_staged 125 946413591 (2 ^ 30) 32639 32768 32 32);
      [lia | lia | lia | lia | | |].
    + rewrite INR_32. field.
    + apply Z.leb_le. vm_compute. reflexivity.
    + apply Z.leb_le. vm_compute. reflexivity.
  - apply (exp_above_staged 125 1253635230 (2 ^ 30) 32927 32768 32 32);
      [lia | lia | lia | lia | | |].
    + rewrite INR_32. field.
    + apply Z.leb_le. vm_compute. reflexivity.
    + apply Z.ltb_lt. vm_compute. reflexivity.
Qed.

Lemma Rabs_le_bounds (x a : R) : Rabs x <= a -> - a <= x <= a.
Proof. unfold Rabs. destruct (Rcase_abs x); lra. Qed.

Lemma lambda_of_product_between (y : R) (k : Z) :
  (0 <= k)%Z -> IZR k <= y < IZR k + 1 -> lambda_of_product y = (4 + k)%Z.
Proof.
  intros Hk Hy. unfold lambda_of_product, floor.
  rewrite (Int_part_between y k Hy), <- plus_IZR.
  apply double_to_int_IZR. lia.
Qed.

Lemma default_lambda_floor (d : Z) :
  (0 < d)%Z ->
  default_lambda d = Int_part (4 + 3 * ln (IZR d)) /\ (4 <= default_lambda d)%Z.
Proof.
  intros Hd.
  assert (Hln : 0 <= 3 * ln (IZR d)).
  { assert (0 <= ln (IZR d)); [|lra]. apply ln_nonneg. apply IZR_le. lia. }
  assert (Hk : (0 <= Int_part (3 * ln (IZR d)))%Z).
  { destruct (base_Int_part (3 * ln (IZR d))) as [_ Hhi].
    apply Z.lt_succ_r. apply lt_IZR. rewrite succ_IZR. lra. }
  assert (Hlam : default_lambda d = (4 + Int_part (3 * ln (IZR d)))%Z).
  { unfold default_lambda. apply lambda_of_product_between; [exact Hk|].
    destruct (base_Int_part (3 * ln (IZR d))). lra. }
  split; [|lia]. rewrite Hlam. symmetry. apply Int_part_shift.
Qed.

(** Whatever value within 1/32 of [3 ln 10] the double product is, the
    resulting population size is 10. *)
Lemma lambda_of_product_near_10 (y : R) :
  Rabs (y - 3 * ln 10) <= / 32 -> lambda_of_product y = 10%Z.
Proof.
  intros Hy. apply Rabs_le_bounds in Hy.
  apply (lambda_of_product_between y 6); [lia|].
  pose proof three_ln_10. lra.
Qed.

(** Whatever value within 1/32 of [3 ln 30] the double product is, the
    resulting population size is 14. *)
Lemma lambda_of_product_near_30 (y : R) :
  Rabs (y - 3 * ln 30) <= / 32 -> lambda_of_product y = 14%Z.
Proof.
  intros Hy. apply Rabs_le_bounds in Hy.
  apply (lambda_of_product_between y 10); [lia|].
  pose proof three_ln_30. lra.
Qed.

(** The population size of the [dim=5] scenario. *)
Lemma default_lambda_5 : default_lambda 5 = 8%Z.
Proof.
  apply (lambda_of_product_between _ 4); [lia|].
  pose proof three_ln_5. lra.
Qed.

Lemma default_lambda_10 : default_lambda 10 = 10%Z.
Proof.
  apply lambda_of_product_near_10.
  rewrite Rminus_diag, Rabs_R0. lra.
Qed.

Lemma default_lambda_30 : default_lambda 30 = 14%Z.
Proof.
  apply lambda_of_product_near_30.
  rewrite Rminus_diag, Rabs_R0. lra.
Qed.

End Heuristic.

Section Lambda.

Context {TGenoPheno : Type}.

Lemma Parameters_ctor_lambda now dimension x0 lam seed (gp : TGenoPheno) :
  _lambda (Parameters_ctor now dimension x0 lam seed gp) =
  if (lam =? -1)%Z then default_lambda dimension else lam.
Proof.
  change (_lambda (outside_bounds (Parameters_ctor now dimension x0 lam seed gp))
          = if (lam =? -1)%Z then default_lambda dimension else lam).
  unfold Parameters_ctor. cbv zeta.
  rewrite (proj2 (proj2 (set_x0_array_spec x0 _))). simpl.
  destruct (lam =? -1)%Z; simpl; destruct (seed =? 0)%Z; reflexivity.
Qed.

(** C2 (amended). For every [dim > 0], constructing with the
    unspecified-lambda value -1 resolves the population size to
    [floor(4 + 3*ln(dim))], which is at least 4 (hence at least 1);
    [dim=10] yields 10 and [dim=30] yields 14. *)
Theorem Parameters_ctor_lambda_unspecified now dimension x0 seed (gp : TGenoPheno) :
  (0 < dimension)%Z ->
  let lam := lambda (Parameters_ctor now dimension x0 lambda_unspecified seed gp) in
  lam = Int_part (4 + 3 * ln (IZR dimension)) /\
  (1 <= lam)%Z /\
  (dimension = 10%Z -> lam = 10%Z) /\
  (dimension = 30%Z -> lam = 14%Z).
Proof.
  intros Hdim. cbv zeta. unfold lambda.
  rewrite Parameters_ctor_lambda. simpl.
  destruct (default_lambda_floor dimension Hdim) as [Hfloor Hfour].
  split; [exact Hfloor|]. split; [lia|].
  split; intros ->; [apply default_lambda_10 | apply default_lambda_30].
Qed.

End Lambda.

Lemma Parameters_ctor_lambda_unspecified_witness :
  (0 < 10)%Z /\ lambda (example_zeros 10) = 10%Z.
Proof.
  split; [lia|].
  destruct (Parameters_ctor_lambda_unspecified 1414141414 10
              (replicate (Z.to_nat 10) 0%float) seed_unspecified IdentityGenoPheno)
    as (_ & _ & Hten & _); [lia|].
  apply Hten. reflexivity.
Defined.

(** C2 (as stated) fails at [dim=30]: the population size the constructor
    resolves is 14, not 13. *)
Lemma Parameters_ctor_lambda_30_not_13 :
  lambda (example_zeros 30) = 14%Z /\ lambda (example_zeros 30) <> 13%Z.
Proof.
  assert (Hlam : lambda (example_zeros 30) = 14%Z).
  { unfold lambda, example_zeros. rewrite Parameters_ctor_lambda. simpl.
    apply default_lambda_30. }
  split; [exact Hlam|]. rewrite Hlam. discriminate.
Qed.

(** * Further properties *)

(** ** Fixed parameters *)

Section FixedParametersMore.

Context {TGenoPheno : Type}.

Implicit Types p q : Parameters TGenoPheno.

Lemma fixed_p_ext p q :
  assign_fixed_p ∅ p = assign_fixed_p ∅ q -> _fixed_p p = _fixed_p q -> p = q.
Proof.
  destruct p, q. unfold assign_fixed_p. simpl. intros Hout Hfix.
  injection Hout as -> -> -> -> -> -> -> -> -> -> -> -> -> -> -> -> -> ->.
  rewrite Hfix. reflexivity.
Qed.

Lemma fixed_p_ext_lookup p q :
  assign_fixed_p ∅ p = assign_fixed_p ∅ q ->
  (forall k, _fixed_p p !! k = _fixed_p q !! k) -> p = q.
Proof. intros Hout Hk. apply fixed_p_ext; [exact Hout|]. apply map_eq, Hk. Qed.

(** X1. [set_fixed_p] on an index that is not frozen binds it to the
    given value, leaves every other index as it was and makes the mapping
    one entry larger. *)
Theorem set_fixed_p_fresh_index (i : Z) (v : float) p :
  _fixed_p p !! i = None ->
  _fixed_p (set_fixed_p i v p) !! i = Some v /\
  (forall j, j ≠ i -> _fixed_p (set_fixed_p i v p) !! j = _fixed_p p !! j) /\
  size (_fixed_p (set_fixed_p i v p)) = S (size (_fixed_p p)).
Proof.
  intros Hnone. split; [|split].
  - rewrite set_fixed_p_lookup, Hnone. reflexivity.
  - intros j Hne. apply set_fixed_p_lookup_ne. congruence.
  - rewrite set_fixed_p_absent by exact Hnone.
    apply map_size_insert_None, Hnone.
Qed.

(** X2. [unset_fixed_p] on an index frozen at [v] removes that entry and
    no other, the mapping becoming one entry smaller; freezing the index
    at [v] again gives back the object as it was. *)
Theorem unset_fixed_p_frozen_index (i : Z) (v : float) p :
  _fixed_p p !! i = Some v ->
  _fixed_p (unset_fixed_p i p) !! i = None /\
  (forall j, j ≠ i -> _fixed_p (unset_fixed_p i p) !! j = _fixed_p p !! j) /\
  S (size (_fixed_p (unset_fixed_p i p))) = size (_fixed_p p) /\
  set_fixed_p i v (unset_fixed_p i p) = p.
Proof.
  intros Hsome. split; [apply unset_fixed_p_lookup|]. split; [|split].
  - intros j Hne. apply unset_fixed_p_lookup_ne. congruence.
  - unfold unset_fixed_p. simpl. rewrite std_find_erase_delete.
    rewrite map_size_delete, Hsome.
    assert (size (_fixed_p p) <> 0); [|lia].
    intros Hz. apply map_size_empty_inv in Hz. rewrite Hz, lookup_empty in Hsome.
    discriminate.
  - apply fixed_p_ext; [destruct p; reflexivity|].
    unfold set_fixed_p, unset_fixed_p. simpl.
    rewrite std_find_erase_delete, std_insert_fresh by apply lookup_delete_eq.
    rewrite insert_delete_eq. apply insert_id, Hsome.
Qed.

(** X3. To change the value an index is frozen at, it has to be unfrozen
    first: after [set_fixed_p(i,v1); unset_fixed_p(i); set_fixed_p(i,v2)]
    the index is bound to [v2], the other indices are as before the three
    calls, and the first call has left no trace. *)
Theorem refreeze_after_unset (i : Z) (v1 v2 : float) p :
  _fixed_p (set_fixed_p i v2 (unset_fixed_p i (set_fixed_p i v1 p))) !! i = Some v2 /\
  (forall j, j ≠ i ->
     _fixed_p (set_fixed_p i v2 (unset_fixed_p i (set_fixed_p i v1 p))) !! j
     = _fixed_p p !! j) /\
  set_fixed_p i v2 (unset_fixed_p i (set_fixed_p i v1 p))
  = set_fixed_p i v2 (unset_fixed_p i p).
Proof.
  split; [|split].
  - rewrite set_fixed_p_lookup, unset_fixed_p_lookup. reflexivity.
  - intros j Hne.
    rewrite set_fixed_p_lookup_ne, unset_fixed_p_lookup_ne, set_fixed_p_lookup_ne
      by congruence.
    reflexivity.
  - apply fixed_p_ext_lookup; [destruct p; reflexivity|].
    intros j. destruct (decide (j = i)) as [->|Hne].
    + rewrite !set_fixed_p_lookup, !unset_fixed_p_lookup. reflexivity.
    + rewrite !set_fixed_p_lookup_ne, !unset_fixed_p_lookup_ne,
        set_fixed_p_lookup_ne by congruence.
      reflexivity.
Qed.

(** X4. Freezing and unfreezing at two different indices can be done in
    either order: the resulting objects are equal. *)
Theorem fixed_p_calls_commute (i j : Z) (v w : float) p :
  i ≠ j ->
  set_fixed_p i v (set_fixed_p j w p) = set_fixed_p j w (set_fixed_p i v p) /\
  set_fixed_p i v (unset_fixed_p j p) = unset_fixed_p j (set_fixed_p i v p) /\
  unset_fixed_p i (unset_fixed_p j p) = unset_fixed_p j (unset_fixed_p i p).
Proof.
  intros Hne.
  split; [|split]; (apply fixed_p_ext_lookup; [destruct p; reflexivity|]);
    intros k;
    destruct (decide (k = i)) as [Hki|Hki]; destruct (decide (k = j)) as [Hkj|Hkj];
    subst; try congruence;
    repeat first
      [ rewrite set_fixed_p_lookup
      | rewrite unset_fixed_p_lookup
      | rewrite set_fixed_p_lookup_ne by congruence
      | rewrite unset_fixed_p_lookup_ne by congruence ];
    reflexivity.
Qed.

End FixedParametersMore.

Lemma set_fixed_p_fresh_index_witness :
  _fixed_p example_empty !! 3%Z = None /\
  size (_fixed_p (set_fixed_p 3 1%float example_empty)) = 1.
Proof.
  split; [reflexivity|].
  destruct (set_fixed_p_fresh_index 3 1%float example_empty eq_refl)
    as (_ & _ & Hsize).
  exact Hsize.
Defined.

Lemma unset_fixed_p_frozen_index_witness :
  _fixed_p example_frozen !! 3%Z = Some 1%float /\
  set_fixed_p 3 1%float (unset_fixed_p 3 example_frozen) = example_frozen.
Proof.
  split; [reflexivity|].
  destruct (unset_fixed_p_frozen_index 3 1%float example_frozen eq_refl)
    as (_ & _ & _ & Hback).
  exact Hback.
Defined.

Lemma fixed_p_calls_commute_witness :
  3%Z ≠ 5%Z /\
  set_fixed_p 3 1%float (unset_fixed_p 5 example_frozen)
  = unset_fixed_p 5 (set_fixed_p 3 1%float example_frozen).
Proof.
  assert (Hne : 3%Z ≠ 5%Z) by discriminate.
  split; [exact Hne|].
  destruct (fixed_p_calls_commute 3 5 1%float 2%float example_frozen Hne)
    as (_ & Hmixed & _).
  exact Hmixed.
Defined.

(** ** Seed *)

Lemma to_int_range z : Int.int_range (Int.to_int z).
Proof.
  unfold Int.int_range, Int.to_int.
  pose proof (Z.mod_pos_bound (z + 2 ^ 31) (2 ^ 32)). lia.
Qed.

Lemma to_int_congruent z : exists k : Z, Int.to_int z = (z + k * 2 ^ 32)%Z.
Proof.
  unfold Int.to_int. exists (- ((z + 2 ^ 31) / 2 ^ 32))%Z.
  pose proof (Z.div_mod (z + 2 ^ 31) (2 ^ 32)). lia.
Qed.

Lemma to_int_fixed z : Int.to_int z = z <-> Int.int_range z.
Proof.
  split.
  - intros <-. apply to_int_range.
  - unfold Int.int_range, Int.to_int. intros Hz.
    rewrite Z.mod_small by lia. lia.
Qed.

Section SeedMore.

Context {TGenoPheno : Type}.

Implicit Types (p q : Parameters TGenoPheno) (w : World TGenoPheno).

(** X5. On an object whose seed is still 0 (a default-constructed one),
    the first [set_seed] stores the clock reading whatever it is given,
    and, that reading not being 0, it is a second [set_seed] that stores
    its argument, which [get_seed] then returns. *)
Theorem set_seed_takes_effect_at_second_call (now1 now2 v1 v2 : Z) p :
  _seed p = 0%Z ->
  Int.to_uint64 now1 <> 0%Z ->
  Int.int_range v2 ->
  _seed (set_seed now1 v1 p) = Int.to_uint64 now1 /\
  _seed (set_seed now2 v2 (set_seed now1 v1 p)) = Int.to_uint64 v2 /\
  get_seed (set_seed now2 v2 (set_seed now1 v1 p)) = v2.
Proof.
  intros Hzero Hclock Hv2.
  assert (Hfirst : _seed (set_seed now1 v1 p) = Int.to_uint64 now1).
  { rewrite set_seed_zero by exact Hzero. reflexivity. }
  assert (Hsecond : _seed (set_seed now2 v2 (set_seed now1 v1 p)) = Int.to_uint64 v2).
  { rewrite (set_seed_nonzero now2 v2) by (rewrite Hfirst; exact Hclock).
    reflexivity. }
  split; [exact Hfirst|]. split; [exact Hsecond|].
  unfold get_seed. rewrite Hsecond. apply to_int_to_uint64, Hv2.
Qed.

(** X6. On an object whose seed is not 0, [set_seed(0)] does not draw a
    seed from the clock: it stores 0. The clock is read by the call of
    [set_seed] that follows, whose argument is then ignored. *)
Theorem set_seed_zero_is_stored (now now' v : Z) p :
  _seed p <> 0%Z ->
  _seed (set_seed now 0 p) = 0%Z /\
  _seed (set_seed now' v (set_seed now 0 p)) = Int.to_uint64 now'.
Proof.
  intros Hseed.
  assert (Hfirst : _seed (set_seed now 0 p) = 0%Z).
  { rewrite set_seed_nonzero by exact Hseed. reflexivity. }
  split; [exact Hfirst|].
  rewrite (set_seed_zero now' v) by exact Hfirst. reflexivity.
Qed.

(** X7. [get_seed] returns an [int]: the stored seed reduced modulo 2^32
    into the range of [int]. It is the stored seed itself exactly when
    that seed is below 2^31. *)
Theorem get_seed_truncates p :
  (0 <= _seed p)%Z ->
  Int.int_range (get_seed p) /\
  (exists k : Z, get_seed p = (_seed p + k * 2 ^ 32)%Z) /\
  (get_seed p = _seed p <-> (_seed p < 2 ^ 31)%Z).
Proof.
  intros Hpos. unfold get_seed.
  split; [apply to_int_range|]. split; [apply to_int_congruent|].
  rewrite to_int_fixed. unfold Int.int_range. lia.
Qed.

Lemma outside_bounds_seed p q : outside_bounds p = outside_bounds q -> _seed p = _seed q.
Proof. intros Heq. exact (f_equal _seed Heq). Qed.

Lemma exec_seed_range (c : call TGenoPheno) w :
  Int.uint64_range (_seed (object w)) ->
  Int.uint64_range (_seed (object (exec c w))).
Proof.
  intros Hrange. destruct c; simpl; try exact Hrange.
  - rewrite (outside_bounds_seed _ _ (set_x0_outside_bounds c (object w))).
    exact Hrange.
  - unfold set_seed. destruct (_seed (object w) =? 0)%Z; apply to_uint64_range.
  - unfold set_str_algo. destruct (static_algos w !! algo); exact Hrange.
Qed.

(** X8. The seed of an object constructed with a [uint64_t] seed is a
    [uint64_t] value (between 0 and 2^64-1) after any sequence of calls
    of the modifiers, negative arguments of [set_seed] included. *)
Theorem seed_stays_uint64 now dimension x0 lam seed (gp : TGenoPheno)
    (cs : list (call TGenoPheno)) :
  Int.uint64_range seed ->
  Int.uint64_range
    (_seed (object (exec_all cs
       (initial_world (Parameters_ctor now dimension x0 lam seed gp))))).
Proof.
  intros Hseed.
  assert (Hinit : Int.uint64_range
            (_seed (object (initial_world
               (Parameters_ctor now dimension x0 lam seed gp))))).
  { simpl. rewrite Parameters_ctor_seed.
    destruct (seed =? 0)%Z; [apply to_uint64_range | exact Hseed]. }
  revert Hinit. generalize (initial_world (Parameters_ctor now dimension x0 lam seed gp)).
  unfold exec_all. induction cs as [|c cs IH]; intros w Hw; [exact Hw|].
  simpl. apply IH, exec_seed_range, Hw.
Qed.

(** X9. The seed the constructor resolves is 0 in one case only: it was
    given 0 and the clock reading is a multiple of 2^64 (for one, [time]
    returning 0). *)
Theorem Parameters_ctor_seed_zero now dimension x0 lam seed (gp : TGenoPheno) :
  _seed (Parameters_ctor now dimension x0 lam seed gp) = 0%Z <->
  seed = 0%Z /\ (now mod 2 ^ 64 = 0)%Z.
Proof.
  rewrite Parameters_ctor_seed. unfold Int.to_uint64.
  destruct (Z.eqb_spec seed 0) as [->|Hne]; intuition congruence.
Qed.

End SeedMore.

Lemma set_seed_takes_effect_at_second_call_witness :
  _seed example_empty = 0%Z /\
  Int.to_uint64 1414141414 <> 0%Z /\
  Int.int_range 7 /\
  get_seed (set_seed 1515151515 7 (set_seed 1414141414 7 example_empty)) = 7%Z.
Proof.
  assert (Hclock : Int.to_uint64 1414141414 <> 0%Z) by (vm_compute; discriminate).
  assert (Hv : Int.int_range 7) by (unfold Int.int_range; lia).
  split; [reflexivity|]. split; [exact Hclock|]. split; [exact Hv|].
  destruct (set_seed_takes_effect_at_second_call 1414141414 1515151515 7 7
              example_empty eq_refl Hclock Hv) as (_ & _ & Hget).
  exact Hget.
Defined.

Lemma set_seed_zero_is_stored_witness :
  _seed example_seeded <> 0%Z /\
  _seed (set_seed 1515151515 0 example_seeded) = 0%Z /\
  _seed (set_seed 1616161616 7 (set_seed 1515151515 0 example_seeded))
  = 1616161616%Z.
Proof.
  assert (Hseed : _seed example_seeded <> 0%Z) by (vm_compute; discriminate).
  split; [exact Hseed|].
  destruct (set_seed_zero_is_stored 1515151515 1616161616 7 example_seeded Hseed)
    as (Hzero & Hclock).
  split; [exact Hzero|]. rewrite Hclock. reflexivity.
Defined.

Lemma get_seed_truncates_witness :
  (0 <= _seed example_seeded)%Z /\ get_seed example_seeded = _seed example_seeded.
Proof.
  assert (Hpos : (0 <= _seed example_seeded)%Z) by (vm_compute; discriminate).
  split; [exact Hpos|].
  destruct (get_seed_truncates example_seeded Hpos) as (_ & _ & Hiff).
  apply Hiff. vm_compute. reflexivity.
Defined.

Lemma seed_stays_uint64_witness :
  Int.uint64_range 42 /\
  Int.uint64_range
    (_seed (object (exec_all [Call_set_seed 1515151515 (-1)]
       (initial_world
          (Parameters_ctor 1414141414 1 [0%float] 6 42 IdentityGenoPheno))))).
Proof.
  assert (Hseed : Int.uint64_range 42) by (unfold Int.uint64_range; lia).
  split; [exact Hseed|].
  exact (seed_stays_uint64 1414141414 1 [0%float] 6 42 IdentityGenoPheno
           [Call_set_seed 1515151515 (-1)] Hseed).
Defined.

(** ** Initial point and bounds *)

Section BoundsMore.

Context {TGenoPheno : Type}.

Implicit Types p q : Parameters TGenoPheno.

Lemma bounds_ext p q :
  outside_bounds p = outside_bounds q ->
  _x0min p = _x0min q -> _x0max p = _x0max q -> p = q.
Proof.
  destruct p, q. unfold outside_bounds, assign_x0min, assign_x0max. simpl.
  intros Hout Hmin Hmax.
  injection Hout as -> -> -> -> -> -> -> -> -> -> -> -> -> -> -> -> ->.
  rewrite Hmin, Hmax. reflexivity.
Qed.

Lemma set_x0_ext (c : x0_call) p q :
  outside_bounds p = outside_bounds q -> set_x0 c p = set_x0 c q.
Proof.
  intros Hout. apply bounds_ext.
  - rewrite !set_x0_outside_bounds. exact Hout.
  - exact (f_equal fst (set_x0_bounds_only_dim c p q (outside_bounds_dim p q Hout))).
  - exact (f_equal snd (set_x0_bounds_only_dim c p q (outside_bounds_dim p q Hout))).
Qed.

(** X10. On an object of dimension [_dim >= 0], the scalar and the array
    overloads of [set_x0] always leave two bounds of [_dim] coefficients
    each; the [dVec] overloads check no dimension and leave vectors of the
    lengths they were given, which may differ from [_dim] and from each
    other. *)
Theorem set_x0_bound_lengths (c : x0_call) p :
  (0 <= _dim p)%Z ->
  length (get_x0min (set_x0 c p)) =
    match c with
    | X0_vec x0 => length x0
    | X0_vec_bounds x0min _ => length x0min
    | _ => Z.to_nat (_dim p)
    end /\
  length (get_x0max (set_x0 c p)) =
    match c with
    | X0_vec x0 => length x0
    | X0_vec_bounds _ x0max => length x0max
    | _ => Z.to_nat (_dim p)
    end.
Proof.
  intros _.
  pose proof (f_equal fst (set_x0_bounds_read c p)) as Hmin.
  pose proof (f_equal snd (set_x0_bounds_read c p)) as Hmax.
  simpl fst in Hmin. simpl snd in Hmax. rewrite Hmin, Hmax.
  destruct c; simpl; unfold Eigen.Constant;
    rewrite ?length_replicate, ?length_fmap, ?length_seq; split; reflexivity.
Qed.

(** X11. The array overloads of [set_x0] read the first [_dim] values of
    their arrays and nothing after them: given arrays of at least [_dim]
    values, the bounds are their prefixes of length [_dim]. *)
Theorem set_x0_array_reads_prefix (x0min x0max : list float) p :
  (0 <= _dim p)%Z ->
  Z.to_nat (_dim p) <= length x0min ->
  Z.to_nat (_dim p) <= length x0max ->
  get_x0min (set_x0_array x0min p) = take (Z.to_nat (_dim p)) x0min /\
  get_x0max (set_x0_array x0min p) = take (Z.to_nat (_dim p)) x0min /\
  get_x0min (set_x0_array_bounds x0min x0max p) = take (Z.to_nat (_dim p)) x0min /\
  get_x0max (set_x0_array_bounds x0min x0max p) = take (Z.to_nat (_dim p)) x0max.
Proof.
  intros _ Hmin Hmax. unfold get_x0min, get_x0max.
  destruct (set_x0_array_spec x0min p) as (-> & -> & _).
  destruct (set_x0_array_bounds_spec x0min x0max p) as (-> & -> & _).
  rewrite !array_read_seq_take by assumption. auto.
Qed.

(** X12. A call of [set_x0] erases the one before it: the object after
    two calls is, member for member, the object after the second alone,
    and repeating a call changes nothing. *)
Theorem set_x0_overwrites (c1 c2 : x0_call) p :
  (0 <= _dim p)%Z ->
  x0_readable (_dim p) c1 ->
  x0_readable (_dim p) c2 ->
  set_x0 c2 (set_x0 c1 p) = set_x0 c2 p /\
  set_x0 c2 (set_x0 c2 p) = set_x0 c2 p.
Proof.
  intros _ _ _. split; apply set_x0_ext, set_x0_outside_bounds.
Qed.

(** X13. Each overload of [set_x0] with one argument does what the
    overload with two arguments does when given that argument twice, and
    broadcasting a scalar is passing the array, or the vector, that holds
    it [_dim] times. *)
Theorem set_x0_single_argument_overloads (v : float) (a : list float) (x : dVec) p :
  (0 <= _dim p)%Z ->
  Z.to_nat (_dim p) <= length a ->
  set_x0_scalar v p = set_x0_scalar_bounds v v p /\
  set_x0_array a p = set_x0_array_bounds a a p /\
  set_x0_vec x p = set_x0_vec_bounds x x p /\
  set_x0_scalar v p = set_x0_array (replicate (Z.to_nat (_dim p)) v) p /\
  set_x0_scalar v p = set_x0_vec (Eigen.Constant (_dim p) v) p.
Proof.
  intros _ _.
  split; [destruct p; reflexivity|].
  split; [|split; [reflexivity|]].
  - destruct (set_x0_array_spec a p) as (Emin & Emax & Eout).
    destruct (set_x0_array_bounds_spec a a p) as (Emin' & Emax' & Eout').
    apply bounds_ext; congruence.
  - split; [|destruct p; reflexivity].
    destruct (set_x0_array_spec (replicate (Z.to_nat (_dim p)) v) p)
      as (Emin & Emax & Eout).
    pose proof (array_read_seq (replicate (Z.to_nat (_dim p)) v)) as Hread.
    rewrite length_replicate in Hread. rewrite Hread in Emin, Emax.
    apply bounds_ext.
    + rewrite Eout. destruct p; reflexivity.
    + rewrite Emin. reflexivity.
    + rewrite Emax. reflexivity.
Qed.


(** X15. [reset_ftarget] changes nothing on a freshly constructed
    object, and brings the object back to that state after a
    [set_ftarget]. *)
Theorem reset_ftarget_restores now dimension x0 lam seed (gp : TGenoPheno) (v : float) :
  reset_ftarget (Parameters_ctor now dimension x0 lam seed gp)
  = Parameters_ctor now dimension x0 lam seed gp /\
  reset_ftarget (set_ftarget v (Parameters_ctor now dimension x0 lam seed gp))
  = Parameters_ctor now dimension x0 lam seed gp.
Proof.
  assert (Hundo : forall q, reset_ftarget (set_ftarget v q) = reset_ftarget q)
    by (intros q; destruct q; reflexivity).
  rewrite Hundo.
  assert (Hreset : reset_ftarget (Parameters_ctor now dimension x0 lam seed gp)
                   = Parameters_ctor now dimension x0 lam seed gp).
  { assert (Hid : forall q, _ftarget q = (- infinity)%float -> reset_ftarget q = q)
      by (intros q; destruct q; simpl; intros ->; reflexivity).
    apply Hid.
    change (_ftarget (outside_bounds (Parameters_ctor now dimension x0 lam seed gp))
            = (- infinity)%float).
    unfold Parameters_ctor. cbv zeta.
    rewrite (proj2 (proj2 (set_x0_array_spec x0 _))). simpl.
    destruct (lam =? -1)%Z; simpl; destruct (seed =? 0)%Z; reflexivity. }
  split; exact Hreset.
Qed.

End BoundsMore.

Lemma set_x0_array_reads_prefix_witness :
  (0 <= _dim (example_zeros 2))%Z /\
  Z.to_nat (_dim (example_zeros 2)) <= length [1%float; 2%float; 3%float] /\
  Z.to_nat (_dim (example_zeros 2)) <= length [4%float; 5%float; 6%float; 7%float] /\
  get_x0min (set_x0_array_bounds [1%float; 2%float; 3%float]
               [4%float; 5%float; 6%float; 7%float] (example_zeros 2))
  = [1%float; 2%float] /\
  get_x0max (set_x0_array_bounds [1%float; 2%float; 3%float]
               [4%float; 5%float; 6%float; 7%float] (example_zeros 2))
  = [4%float; 5%float].
Proof.
  assert (Hdim : _dim (example_zeros 2) = 2%Z) by apply Parameters_ctor_dim.
  assert (Hmin : Z.to_nat (_dim (example_zeros 2)) <= length [1%float; 2%float; 3%float])
    by (rewrite Hdim; simpl; lia).
  assert (Hmax : Z.to_nat (_dim (example_zeros 2))
                 <= length [4%float; 5%float; 6%float; 7%float])
    by (rewrite Hdim; simpl; lia).
  assert (Hpos : (0 <= _dim (example_zeros 2))%Z) by (rewrite Hdim; lia).
  split; [exact Hpos|]. split; [exact Hmin|]. split; [exact Hmax|].
  destruct (set_x0_array_reads_prefix [1%float; 2%float; 3%float]
              [4%float; 5%float; 6%float; 7%float] (example_zeros 2) Hpos Hmin Hmax)
    as (_ & _ & Emin & Emax).
  rewrite Emin, Emax, Hdim. split; reflexivity.
Defined.

Lemma set_x0_overwrites_witness :
  (0 <= _dim (example_zeros 2))%Z /\
  x0_readable (_dim (example_zeros 2)) (X0_array [1%float; 2%float; 3%float]) /\
  x0_readable (_dim (example_zeros 2)) (X0_scalar 5%float) /\
  set_x0 (X0_scalar 5%float)
    (set_x0 (X0_array [1%float; 2%float; 3%float]) (example_zeros 2))
  = set_x0 (X0_scalar 5%float) (example_zeros 2).
Proof.
  assert (Hdim : _dim (example_zeros 2) = 2%Z) by apply Parameters_ctor_dim.
  assert (H1 : x0_readable (_dim (example_zeros 2))
                 (X0_array [1%float; 2%float; 3%float]))
    by (rewrite Hdim; simpl; lia).
  assert (H2 : x0_readable (_dim (example_zeros 2)) (X0_scalar 5%float))
    by exact I.
  assert (Hpos : (0 <= _dim (example_zeros 2))%Z) by (rewrite Hdim; lia).
  split; [exact Hpos|]. split; [exact H1|]. split; [exact H2|].
  exact (proj1 (set_x0_overwrites _ _ _ Hpos H1 H2)).
Defined.


Lemma set_x0_bound_lengths_witness :
  (0 <= _dim (example_zeros 2))%Z /\
  length (get_x0min (set_x0 (X0_scalar 5%float) (example_zeros 2))) = 2 /\
  length (get_x0max (set_x0 (X0_vec_bounds [1%float] [2%float; 3%float; 4%float])
                       (example_zeros 2))) = 3.
Proof.
  assert (Hdim : _dim (example_zeros 2) = 2%Z) by apply Parameters_ctor_dim.
  assert (Hpos : (0 <= _dim (example_zeros 2))%Z) by (rewrite Hdim; lia).
  split; [exact Hpos|]. split.
  - rewrite (proj1 (set_x0_bound_lengths (X0_scalar 5%float) (example_zeros 2) Hpos)).
    rewrite Hdim. reflexivity.
  - exact (proj2 (set_x0_bound_lengths
                    (X0_vec_bounds [1%float] [2%float; 3%float; 4%float])
                    (example_zeros 2) Hpos)).
Defined.

Lemma set_x0_single_argument_overloads_witness :
  (0 <= _dim (example_zeros 2))%Z /\
  Z.to_nat (_dim (example_zeros 2)) <= length [1%float; 2%float] /\
  set_x0_array [1%float; 2%float] (example_zeros 2)
  = set_x0_array_bounds [1%float; 2%float] [1%float; 2%float] (example_zeros 2).
Proof.
  assert (Hdim : _dim (example_zeros 2) = 2%Z) by apply Parameters_ctor_dim.
  assert (Hpos : (0 <= _dim (example_zeros 2))%Z) by (rewrite Hdim; lia).
  assert (Hlen : Z.to_nat (_dim (example_zeros 2)) <= length [1%float; 2%float])
    by (rewrite Hdim; simpl; lia).
  split; [exact Hpos|]. split; [exact Hlen|].
  destruct (set_x0_single_argument_overloads 5%float [1%float; 2%float] []
              (example_zeros 2) Hpos Hlen) as (_ & Harray & _).
  exact Harray.
Defined.

(** ** Calls on different members *)

Section Commute.

Context {TGenoPheno : Type}.

Implicit Types (p q : Parameters TGenoPheno) (w : World TGenoPheno).

(** [set_x0] can be moved across any function of the object that keeps
    [_dim] and does not look at the bounds. *)
Lemma set_x0_commutes (f : Parameters TGenoPheno -> Parameters TGenoPheno)
    (c : x0_call) p :
  (forall q, _dim (f q) = _dim q) ->
  (forall a q, f (assign_x0min a q) = assign_x0min a (f q)) ->
  (forall a q, f (assign_x0max a q) = assign_x0max a (f q)) ->
  set_x0 c (f p) = f (set_x0 c p).
Proof.
  intros Hdim Hmin Hmax.
  assert (Hfmin : forall q, _x0min (f q) = _x0min q).
  { intros q.
    assert (Hq : q = assign_x0min (_x0min q) q) by (destruct q; reflexivity).
    rewrite Hq at 1. rewrite Hmin. reflexivity. }
  assert (Hfmax : forall q, _x0max (f q) = _x0max q).
  { intros q.
    assert (Hq : q = assign_x0max (_x0max q) q) by (destruct q; reflexivity).
    rewrite Hq at 1. rewrite Hmax. reflexivity. }
  assert (Hfout : forall q, outside_bounds (f q) = f (outside_bounds q)).
  { intros q. unfold outside_bounds. rewrite Hmin, Hmax. reflexivity. }
  apply bounds_ext.
  - rewrite set_x0_outside_bounds, !Hfout, set_x0_outside_bounds. reflexivity.
  - rewrite Hfmin.
    exact (f_equal fst (set_x0_bounds_only_dim c (f p) p (Hdim p))).
  - rewrite Hfmax.
    exact (f_equal snd (set_x0_bounds_only_dim c (f p) p (Hdim p))).
Qed.

Ltac frame_of_setter :=
  let obj := fresh "obj" in
  first
    [ intros ? obj; destruct obj; reflexivity
    | intros obj; destruct obj; reflexivity
    | intros ? obj; destruct obj; unfold set_seed; simpl;
      match goal with |- context [(?s =? 0)%Z] => destruct (s =? 0)%Z end;
      reflexivity
    | intros obj; destruct obj; unfold set_seed; simpl;
      match goal with |- context [(?s =? 0)%Z] => destruct (s =? 0)%Z end;
      reflexivity ].

Lemma set_x0_commutes_with_call (c : x0_call) (c' : call TGenoPheno) w :
  written_member c' <> M_bounds ->
  exec (Call_set_x0 c) (exec c' w) = exec c' (exec (Call_set_x0 c) w).
Proof.
  intros Hmember. destruct w as [algos p l].
  destruct c'; simpl in Hmember; try congruence;
    unfold exec, on_object; cbn [static_algos object logged];
    try (f_equal; apply set_x0_commutes; frame_of_setter).
  unfold set_str_algo.
  match goal with |- context [algos !! ?n] => destruct (algos !! n) as [code|] end;
    [|reflexivity].
  f_equal. apply (set_x0_commutes (assign_algo code)); frame_of_setter.
Qed.

(** X16. Two calls of modifiers that assign different members can be
    made in either order: object, registry and log end up the same.
    ([set_x0] assigns the two bounds, [set_fixed_p] and [unset_fixed_p]
    the mapping, [set_ftarget] and [reset_ftarget] the target, [set_algo]
    and [set_str_algo] the algorithm code, every other modifier the member
    it is named after.) *)
Theorem calls_on_different_members_commute (c1 c2 : call TGenoPheno) w :
  written_member c1 <> written_member c2 ->
  exec c1 (exec c2 w) = exec c2 (exec c1 w).
Proof.
  intros Hmember.
  destruct c1 as [x1| | | | | | | | | | | | | | | | | |].
  { apply set_x0_commutes_with_call. simpl in Hmember. congruence. }
  all: destruct c2 as [x2| | | | | | | | | | | | | | | | | |].
  all: simpl in Hmember; try congruence.
  all: try (symmetry; apply set_x0_commutes_with_call; simpl; congruence).
  all: destruct w as [algos p l]; destruct p;
       unfold exec, on_object, set_str_algo, set_seed;
       simpl;
       repeat (match goal with
               | |- context [?a !! ?n] => destruct (a !! n)
               end; simpl);
       repeat (match goal with
               | |- context [(?s =? 0)%Z] => destruct (s =? 0)%Z
               end; simpl);
       rewrite ?app_nil_r; reflexivity.
Qed.

End Commute.

Lemma calls_on_different_members_commute_witness :
  written_member (TGenoPheno := GenoPheno_NoBoundStrategy)
    (Call_set_str_algo "nonexistent")
  <> written_member (TGenoPheno := GenoPheno_NoBoundStrategy)
       (Call_set_x0 (X0_array [1%float; 2%float])) /\
  exec (Call_set_str_algo "nonexistent")
    (exec (Call_set_x0 (X0_array [1%float; 2%float]))
       (initial_world (example_zeros 2)))
  = exec (Call_set_x0 (X0_array [1%float; 2%float]))
      (exec (Call_set_str_algo "nonexistent") (initial_world (example_zeros 2))).
Proof.
  assert (Hmember :
            written_member (TGenoPheno := GenoPheno_NoBoundStrategy)
              (Call_set_str_algo "nonexistent")
            <> written_member (TGenoPheno := GenoPheno_NoBoundStrategy)
                 (Call_set_x0 (X0_array [1%float; 2%float])))
    by discriminate.
  split; [exact Hmember|].
  exact (calls_on_different_members_commute _ _ _ Hmember).
Defined.

(** ** Algorithm selection and the log *)

Section AlgoMore.

Context {TGenoPheno : Type}.

Implicit Types (p q : Parameters TGenoPheno) (w : World TGenoPheno).

(** X17. For each of the ten registered names, [set_str_algo] with the
    name does exactly what [set_algo] does with the name's code, a code
    between 0 and 9, and logs nothing. *)
Theorem set_str_algo_registered_name (name : string) (code : Z) p :
  (name, code) ∈ registered ->
  set_str_algo _algos name p = (set_algo code p, []) /\
  exec (Call_set_str_algo name) (initial_world p)
  = exec (Call_set_algo code) (initial_world p) /\
  (0 <= code <= 9)%Z.
Proof.
  intros Hin. apply _algos_lookup_registered in Hin.
  assert (Hrun : set_str_algo _algos name p = (set_algo code p, []))
    by (apply set_str_algo_found, Hin).
  split; [exact Hrun|]. split; [|eapply _algos_codes, Hin].
  unfold exec, initial_world, on_object. cbn [static_algos object logged].
  rewrite Hrun. reflexivity.
Qed.

Lemma exec_logged (c : call TGenoPheno) w :
  logged (exec c w)
  = logged w ++ (unknown_algorithm <$> unknown_names (static_algos w) [c]).
Proof.
  destruct c; simpl; rewrite ?app_nil_r; try reflexivity.
  unfold set_str_algo. destruct (static_algos w !! algo); simpl;
    rewrite ?app_nil_r; reflexivity.
Qed.

(** X18. The log after a sequence of calls is the log before it followed
    by one ERROR record "unknown algorithm <name>" for each [set_str_algo]
    given an unregistered name, in the order of the calls. No other call
    logs, and nothing logged is removed or changed. *)
Theorem log_of_calls (cs : list (call TGenoPheno)) w :
  logged (exec_all cs w)
  = logged w ++ (unknown_algorithm <$> unknown_names (static_algos w) cs).
Proof.
  unfold exec_all. revert w. induction cs as [|c cs IH]; intros w.
  - simpl. rewrite app_nil_r. reflexivity.
  - simpl foldl. rewrite IH, exec_logged, exec_static_algos.
    change (c :: cs) with ([c] ++ cs).
    unfold unknown_names. rewrite flat_map_app, fmap_app, app_assoc.
    reflexivity.
Qed.

Lemma exec_algo_range (c : call TGenoPheno) w :
  is_set_algo c = false ->
  (forall name code, static_algos w !! name = Some code -> (0 <= code <= 9)%Z) ->
  (0 <= _algo (object w) <= 9)%Z ->
  (0 <= _algo (object (exec c w)) <= 9)%Z.
Proof.
  intros Hc Hreg Hrange. destruct c; simpl in *; try exact Hrange; try discriminate.
  - assert (Halgo : _algo (set_x0 c (object w)) = _algo (object w))
      by exact (f_equal _algo (set_x0_outside_bounds c (object w))).
    rewrite Halgo. exact Hrange.
  - unfold set_seed. destruct (_seed (object w) =? 0)%Z; exact Hrange.
  - unfold set_str_algo. destruct (static_algos w !! algo) as [code|] eqn:E.
    + simpl. eapply Hreg, E.
    + exact Hrange.
Qed.

(** X19. Without a call of [set_algo], the algorithm code of an object
    that starts between 0 and 9 (a constructed object starts at 0) stays
    between 0 and 9 whatever is called: the codes 10 and 11 cannot be
    selected by name. *)
Theorem names_select_codes_up_to_nine (cs : list (call TGenoPheno)) p :
  forallb (fun c => negb (is_set_algo c)) cs = true ->
  (0 <= get_algo p <= 9)%Z ->
  (0 <= get_algo (object (exec_all cs (initial_world p))) <= 9)%Z.
Proof.
  unfold get_algo. intros Hcs Hp.
  assert (Hgen : forall w,
            static_algos w = _algos ->
            (0 <= _algo (object w) <= 9)%Z ->
            (0 <= _algo (object (exec_all cs w)) <= 9)%Z).
  { unfold exec_all. induction cs as [|c cs IH]; intros w Hw Hrange; [exact Hrange|].
    simpl in Hcs. apply andb_prop in Hcs. destruct Hcs as [Hc Hcs].
    simpl. apply IH; [exact Hcs | rewrite exec_static_algos; exact Hw |].
    apply exec_algo_range;
      [destruct (is_set_algo c); [discriminate|reflexivity] | | exact Hrange].
    rewrite Hw. apply _algos_codes. }
  apply Hgen; [reflexivity | exact Hp].
Qed.

End AlgoMore.

Lemma set_str_algo_registered_name_witness :
  ("sepacmaes", 9%Z) ∈ registered /\
  set_str_algo _algos "sepacmaes" example_empty = (set_algo 9 example_empty, []).
Proof.
  assert (Hin : ("sepacmaes", 9%Z) ∈ registered).
  { unfold registered. rewrite !elem_of_cons. auto 20. }
  split; [exact Hin|].
  exact (proj1 (set_str_algo_registered_name "sepacmaes" 9 example_empty Hin)).
Defined.

Lemma names_select_codes_up_to_nine_witness :
  forallb (fun c => negb (is_set_algo c))
    [Call_set_str_algo "sepbipop"; Call_set_quiet true;
     Call_set_str_algo (TGenoPheno := GenoPheno_NoBoundStrategy) "sepabipop"] = true /\
  (0 <= get_algo example_empty <= 9)%Z /\
  (0 <= get_algo (object (exec_all
          [Call_set_str_algo "sepbipop"; Call_set_quiet true;
           Call_set_str_algo "sepabipop"] (initial_world example_empty))) <= 9)%Z.
Proof.
  assert (Hp : (0 <= get_algo example_empty <= 9)%Z) by (vm_compute; split; discriminate).
  split; [reflexivity|]. split; [exact Hp|].
  exact (names_select_codes_up_to_nine
           [Call_set_str_algo "sepbipop"; Call_set_quiet true;
            Call_set_str_algo "sepabipop"] example_empty eq_refl Hp).
Defined.

(** ** The population-size heuristic *)

Section HeuristicMore.

Local Open Scope R_scope.

Lemma Int_part_monotone (x y : R) : x <= y -> (Int_part x <= Int_part y)%Z.
Proof.
  intros Hxy.
  destruct (base_Int_part x) as [Hx _]. destruct (base_Int_part y) as [_ Hy].
  apply Z.lt_succ_r. apply lt_IZR. rewrite succ_IZR. lra.
Qed.

Lemma default_lambda_unfold (d : Z) :
  (0 < d)%Z -> default_lambda d = (4 + Int_part (3 * ln (IZR d)))%Z.
Proof.
  intros Hd. destruct (default_lambda_floor d Hd) as [-> _].
  apply Int_part_shift.
Qed.

Lemma ln_monotone (x y : R) : 0 < x -> x <= y -> ln x <= ln y.
Proof.
  intros Hx [Hlt| ->]; [|lra]. left. apply ln_increasing; assumption.
Qed.

Lemma default_lambda_monotone (d1 d2 : Z) :
  (0 < d1 <= d2)%Z -> (default_lambda d1 <= default_lambda d2)%Z.
Proof.
  intros [Hpos Hle]. rewrite !default_lambda_unfold by lia.
  apply Z.add_le_mono_l. apply Int_part_monotone.
  apply Rmult_le_compat_l; [lra|].
  apply ln_monotone; [apply IZR_lt; exact Hpos | apply IZR_le; exact Hle].
Qed.

Lemma exp_65 : IZR (2 ^ 93) < exp 65.
Proof.
  apply (exp_above_staged (2 ^ 93) 27391 10000 4161 4096 64 64);
    [lia | lia | lia | lia | | |].
  - rewrite INR_64. field.
  - apply Z.leb_le. vm_compute. reflexivity.
  - apply Z.ltb_lt. vm_compute. reflexivity.
Qed.

Lemma default_lambda_int (d : Z) :
  (0 < d < 2 ^ 31)%Z -> (4 <= default_lambda d <= 68)%Z.
Proof.
  intros [Hpos Hint]. split; [apply default_lambda_floor; exact Hpos|].
  rewrite default_lambda_unfold by exact Hpos.
  assert (Hcube : (d ^ 3 < 2 ^ 93)%Z).
  { change (2 ^ 93)%Z with ((2 ^ 31) ^ 3)%Z. apply Z.pow_lt_mono_l; lia. }
  assert (Hln : 3 * ln (IZR d) < 65).
  { apply (three_ln_between d 0 65); [exact Hpos | |].
    - rewrite exp_0. apply IZR_le. change 1%Z with (1 ^ 3)%Z.
      apply Z.pow_le_mono_l. lia.
    - eapply Rlt_trans; [apply IZR_lt, Hcube | apply exp_65]. }
  assert (Hpart : (Int_part (3 * ln (IZR d)) < 65)%Z).
  { apply lt_IZR. destruct (base_Int_part (3 * ln (IZR d))) as [Hlo _]. lra. }
  lia.
Qed.

Lemma default_lambda_1 : default_lambda 1 = 4%Z.
Proof.
  rewrite default_lambda_unfold by lia. rewrite ln_1, Rmult_0_r.
  rewrite (Int_part_IZR 0). reflexivity.
Qed.

End HeuristicMore.

Section LambdaMore.

Context {TGenoPheno : Type}.

(** X20. The population size the constructor resolves for an unspecified
    [lambda] does not decrease when the dimension grows. *)
Theorem Parameters_ctor_lambda_monotone now now' d1 d2 x1 x2 seed seed'
    (gp gp' : TGenoPheno) :
  (0 < d1 <= d2)%Z ->
  (lambda (Parameters_ctor now d1 x1 lambda_unspecified seed gp)
   <= lambda (Parameters_ctor now' d2 x2 lambda_unspecified seed' gp'))%Z.
Proof.
  intros Hd. unfold lambda. rewrite !Parameters_ctor_lambda. simpl.
  apply default_lambda_monotone, Hd.
Qed.

(** X21. For every dimension an [int] can hold, from 1 to 2^31-1, the
    population size resolved for an unspecified [lambda] lies between 4
    and 68 (4 being the value at dimension 1), so that the conversion of
    the heuristic's [double] to [int] is always in range; a [lambda] other
    than -1 is stored as given, without any check. *)
Theorem Parameters_ctor_lambda_range now dimension x0 seed (gp : TGenoPheno) :
  (0 < dimension < 2 ^ 31)%Z ->
  (4 <= lambda (Parameters_ctor now dimension x0 lambda_unspecified seed gp) <= 68)%Z /\
  lambda (Parameters_ctor now 1 x0 lambda_unspecified seed gp) = 4%Z /\
  (forall lam, lam <> (-1)%Z ->
     lambda (Parameters_ctor now dimension x0 lam seed gp) = lam).
Proof.
  intros Hdim. unfold lambda. rewrite !Parameters_ctor_lambda. simpl.
  split; [apply default_lambda_int, Hdim|].
  split; [apply default_lambda_1|].
  intros lam Hlam. rewrite Parameters_ctor_lambda.
  destruct (Z.eqb_spec lam (-1)) as [Heq|_]; [contradiction|reflexivity].
Qed.

End LambdaMore.

Lemma Parameters_ctor_lambda_monotone_witness :
  (0 < 10 <= 30)%Z /\ (lambda (example_zeros 10) <= lambda (example_zeros 30))%Z.
Proof.
  assert (Hd : (0 < 10 <= 30)%Z) by lia.
  split; [exact Hd|].
  exact (Parameters_ctor_lambda_monotone 1414141414 1414141414 10 30
           (replicate (Z.to_nat 10) 0%float) (replicate (Z.to_nat 30) 0%float)
           seed_unspecified seed_unspecified IdentityGenoPheno IdentityGenoPheno Hd).
Defined.

Lemma Parameters_ctor_lambda_range_witness :
  (0 < 30 < 2 ^ 31)%Z /\ (4 <= lambda (example_zeros 30) <= 68)%Z.
Proof.
  assert (Hd : (0 < 30 < 2 ^ 31)%Z) by lia.
  split; [exact Hd|].
  exact (proj1 (Parameters_ctor_lambda_range 1414141414 30
                  (replicate (Z.to_nat 30) 0%float) seed_unspecified
                  IdentityGenoPheno Hd)).
Defined.

(** ** What a modifier leaves alone *)

Section FrameMore.

Context {TGenoPheno : Type}.

Implicit Types (p q : Parameters TGenoPheno) (w : World TGenoPheno).

(** X22. A modifier changes no member but the one it assigns: after any
    call, each member the call does not assign holds what it held before
    ([_dim] and [_lambda], which no modifier assigns, included). *)
Theorem modifiers_change_one_member (c : call TGenoPheno) w :
  _dim (object (exec c w)) = _dim (object w) /\
  _lambda (object (exec c w)) = _lambda (object w) /\
  (written_member c <> M_bounds ->
     _x0min (object (exec c w)) = _x0min (object w) /\
     _x0max (object (exec c w)) = _x0max (object w)) /\
  (written_member c <> M_fixed_p ->
     _fixed_p (object (exec c w)) = _fixed_p (object w)) /\
  (written_member c <> M_max_iter ->
     _max_iter (object (exec c w)) = _max_iter (object w)) /\
  (written_member c <> M_max_fevals ->
     _max_fevals (object (exec c w)) = _max_fevals (object w)) /\
  (written_member c <> M_ftarget ->
     _ftarget (object (exec c w)) = _ftarget (object w)) /\
  (written_member c <> M_seed ->
     _seed (object (exec c w)) = _seed (object w)) /\
  (written_member c <> M_ftolerance ->
     _ftolerance (object (exec c w)) = _ftolerance (object w)) /\
  (written_member c <> M_xtol ->
     _xtol (object (exec c w)) = _xtol (object w)) /\
  (written_member c <> M_quiet ->
     _quiet (object (exec c w)) = _quiet (object w)) /\
  (written_member c <> M_algo ->
     _algo (object (exec c w)) = _algo (object w)) /\
  (written_member c <> M_gp ->
     _gp (object (exec c w)) = _gp (object w)) /\
  (written_member c <> M_fplot ->
     _fplot (object (exec c w)) = _fplot (object w)) /\
  (written_member c <> M_with_gradient ->
     _with_gradient (object (exec c w)) = _with_gradient (object w)) /\
  (written_member c <> M_with_edm ->
     _with_edm (object (exec c w)) = _with_edm (object w)) /\
  (written_member c <> M_mt_feval ->
     _mt_feval (object (exec c w)) = _mt_feval (object w)) /\
  (written_member c <> M_max_hist ->
     _max_hist (object (exec c w)) = _max_hist (object w)).
Proof.
  destruct c as [x| | | | | | |now seed| | | | |name| | | | | |].
  - pose proof (set_x0_outside_bounds x (object w)) as Hout.
    simpl.
    repeat split; intros; try congruence;
      first [ exact (f_equal _dim Hout) | exact (f_equal _lambda Hout)
            | exact (f_equal _fixed_p Hout) | exact (f_equal _max_iter Hout)
            | exact (f_equal _max_fevals Hout) | exact (f_equal _ftarget Hout)
            | exact (f_equal _seed Hout) | exact (f_equal _ftolerance Hout)
            | exact (f_equal _xtol Hout) | exact (f_equal _quiet Hout)
            | exact (f_equal _algo Hout) | exact (f_equal _gp Hout)
            | exact (f_equal _fplot Hout) | exact (f_equal _with_gradient Hout)
            | exact (f_equal _with_edm Hout) | exact (f_equal _mt_feval Hout)
            | exact (f_equal _max_hist Hout) ].
  - simpl. repeat split; intros; try congruence; reflexivity.
  - simpl. repeat split; intros; try congruence; reflexivity.
  - simpl. repeat split; intros; try congruence; reflexivity.
  - simpl. repeat split; intros; try congruence; reflexivity.
  - simpl. repeat split; intros; try congruence; reflexivity.
  - simpl. repeat split; intros; try congruence; reflexivity.
  - simpl. unfold set_seed. destruct (_seed (object w) =? 0)%Z;
      repeat split; intros; try congruence; reflexivity.
  - simpl. repeat split; intros; try congruence; reflexivity.
  - simpl. repeat split; intros; try congruence; reflexivity.
  - simpl. repeat split; intros; try congruence; reflexivity.
  - simpl. repeat split; intros; try congruence; reflexivity.
  - simpl. unfold set_str_algo. destruct (static_algos w !! name);
      repeat split; intros; try congruence; reflexivity.
  - simpl. repeat split; intros; try congruence; reflexivity.
  - simpl. repeat split; intros; try congruence; reflexivity.
  - simpl. repeat split; intros; try congruence; reflexivity.
  - simpl. repeat split; intros; try congruence; reflexivity.
  - simpl. repeat split; intros; try congruence; reflexivity.
  - simpl. repeat split; intros; try congruence; reflexivity.
Qed.

(** X23. Calling the array overload of [set_x0] on a constructed object
    gives the object the constructor would have built from that array:
    the initial point given at construction leaves no trace. *)
Theorem set_x0_array_after_ctor now dimension x0 a lam seed (gp : TGenoPheno) :
  (0 <= dimension)%Z ->
  Z.to_nat dimension <= length x0 ->
  Z.to_nat dimension <= length a ->
  set_x0_array a (Parameters_ctor now dimension x0 lam seed gp)
  = Parameters_ctor now dimension a lam seed gp.
Proof.
  intros _ _ _. unfold Parameters_ctor. cbv zeta.
  apply (set_x0_ext (X0_array a)).
  apply (set_x0_outside_bounds (X0_array x0)).
Qed.

End FrameMore.

Lemma modifiers_change_one_member_witness :
  written_member (TGenoPheno := GenoPheno_NoBoundStrategy)
    (Call_set_seed 1515151515 7) <> M_fixed_p /\
  _fixed_p (object (exec (Call_set_seed 1515151515 7) (initial_world example_frozen)))
  = _fixed_p example_frozen.
Proof.
  assert (Hmember : written_member (TGenoPheno := GenoPheno_NoBoundStrategy)
                      (Call_set_seed 1515151515 7) <> M_fixed_p) by discriminate.
  split; [exact Hmember|].
  destruct (modifiers_change_one_member (Call_set_seed 1515151515 7)
              (initial_world example_frozen)) as (_ & _ & _ & Hfixed & _).
  exact (Hfixed Hmember).
Defined.

Lemma set_x0_array_after_ctor_witness :
  (0 <= 2)%Z /\
  Z.to_nat 2 <= length [0%float; 0%float] /\
  Z.to_nat 2 <= length [1%float; 2%float; 3%float] /\
  set_x0_array [1%float; 2%float; 3%float] (example_zeros 2)
  = Parameters_ctor 1414141414 2 [1%float; 2%float; 3%float] lambda_unspecified
      seed_unspecified IdentityGenoPheno.
Proof.
  assert (Hpos : (0 <= 2)%Z) by lia.
  assert (Hx0 : Z.to_nat 2 <= length [0%float; 0%float]) by (simpl; lia).
  assert (Ha : Z.to_nat 2 <= length [1%float; 2%float; 3%float]) by (simpl; lia).
  split; [exact Hpos|]. split; [exact Hx0|]. split; [exact Ha|].
  exact (set_x0_array_after_ctor 1414141414 2 [0%float; 0%float]
           [1%float; 2%float; 3%float] lambda_unspecified seed_unspecified
           IdentityGenoPheno Hpos Hx0 Ha).
Defined.
